(** * clwind: a fluent builder of ANSI colour and style escape strings

    Shallow embedding of [mod.ts] and proofs of the properties its
    specification states about it.

    Conventions of the embedding.
    - A JavaScript string is a [string]: one [ascii] stands for one UTF-16
      code unit below 256.
    - A JavaScript number is a [number]: an integral value, [NaN], or an
      infinity.  Finite numbers with a fractional part are left out: the
      language leaves their rendering in radix 16 to the implementation.
    - A method that assigns to [this] and returns [this] is a function from
      the builder to the builder it leaves behind; a [throw] is the [Throw]
      case of [result], and the builder is then left as it was, since every
      throwing expression of the source is evaluated before the assignment
      that uses it. *)

From Stdlib Require Import ZArith List Bool Ascii String Lia Permutation.
Import ListNotations.

Open Scope string_scope.
Open Scope Z_scope.

(** ** Thrown values and the error monad *)

(** [new Error(message)] *)
Inductive Error : Type :=
| JsError (message : string).

Inductive result (A : Type) : Type :=
| Ok (value : A)
| Throw (e : Error).

Arguments Ok {A} value.
Arguments Throw {A} e.

Definition bind {A B : Type} (r : result A) (k : A -> result B) : result B :=
  match r with
  | Ok a => k a
  | Throw e => Throw e
  end.

Notation "'let*' x ':=' r 'in' k" := (bind r (fun x => k))
  (at level 10, x name, r at level 100, k at level 200).

(** ** The language primitives the module calls *)

Module Js.

Inductive number : Type :=
| Num (z : Z)
| NaN
| Inf (negative : bool).

Definition isNaN (x : number) : bool :=
  match x with
  | NaN => true
  | _ => false
  end.

Definition code (c : ascii) : Z := Z.of_N (N_of_ascii c).

Definition char_of (n : Z) : ascii := ascii_of_N (Z.to_N n).

(** The value of a number of magnitude [a] once stored as a double:
    53 significant bits, round to nearest, ties to even, overflow to an
    infinity. *)
Definition to_double (z : Z) : number :=
  let a := Z.abs z in
  let bits := Z.log2 a + 1 in
  if bits <=? 53 then Num z
  else
    let sh := bits - 53 in
    let q := Z.shiftr a sh in
    let r := a mod 2 ^ sh in
    let half := 2 ^ (sh - 1) in
    let q' := if (half <? r) || ((r =? half) && Z.odd q) then q + 1 else q in
    let v := q' * 2 ^ sh in
    if 2 ^ 1024 <=? v then Inf (z <? 0) else Num (Z.sgn z * v).

(** [x + y] on numbers *)
Definition add (x y : number) : number :=
  match x, y with
  | NaN, _ | _, NaN => NaN
  | Inf s, Inf t => if Bool.eqb s t then Inf s else NaN
  | Inf s, Num _ | Num _, Inf s => Inf s
  | Num a, Num b => to_double (a + b)
  end.

(** [ToInt32]: the operand of the bit operators *)
Definition ToInt32 (x : number) : Z :=
  match x with
  | Num z =>
      let m := z mod 2 ^ 32 in
      if 2 ^ 31 <=? m then m - 2 ^ 32 else m
  | NaN | Inf _ => 0
  end.

(** [x >> k] *)
Definition sar (x k : number) : number :=
  Num (Z.shiftr (ToInt32 x) (ToInt32 k mod 32)).

(** [x & y] *)
Definition band (x y : number) : number :=
  Num (Z.land (ToInt32 x) (ToInt32 y)).

(** *** Digits *)

(** The value of a digit character, in any radix up to 36. *)
Definition digit_value (c : ascii) : option Z :=
  let n := code c in
  if (48 <=? n) && (n <=? 57) then Some (n - 48)
  else if (97 <=? n) && (n <=? 122) then Some (n - 87)
  else if (65 <=? n) && (n <=? 90) then Some (n - 55)
  else None.

Definition digit_char (d : Z) : ascii :=
  if d <? 10 then char_of (48 + d) else char_of (87 + d).

(** The digits of the longest prefix of [s] made of radix-[R] digits. *)
Fixpoint digits_prefix (R : Z) (s : string) : list Z :=
  match s with
  | EmptyString => []
  | String c rest =>
      match digit_value c with
      | Some d => if d <? R then d :: digits_prefix R rest else []
      | None => []
      end
  end.

Definition math_int (R : Z) (ds : list Z) : Z :=
  fold_left (fun acc d => acc * R + d) ds 0.

(** *** [parseInt] *)

(** White space and line terminators below 256. *)
Definition is_white_space (c : ascii) : bool :=
  let n := code c in
  ((9 <=? n) && (n <=? 13)) || (n =? 32) || (n =? 160).

Fixpoint trim_start (s : string) : string :=
  match s with
  | String c rest => if is_white_space c then trim_start rest else s
  | EmptyString => s
  end.

Definition strip_sign (s : string) : Z * string :=
  match s with
  | String c rest =>
      if (c =? "-")%char then (-1, rest)
      else if (c =? "+")%char then (1, rest)
      else (1, s)
  | EmptyString => (1, s)
  end.

Definition strip_0x (s : string) : option string :=
  match s with
  | String c (String x rest) =>
      if (c =? "0")%char && ((x =? "x")%char || (x =? "X")%char)
      then Some rest else None
  | _ => None
  end.

(** [parseInt(input, radix)]; an absent radix is [Num 0], which is what
    [ToInt32(undefined)] gives.  The digits are read exactly, as the
    language requires of radix 10 up to 20 digits and of radix 16
    throughout. *)
Definition parseInt (input : string) (radix : number) : number :=
  let (sign, s) := strip_sign (trim_start input) in
  let R0 := ToInt32 radix in
  if negb (R0 =? 0) && ((R0 <? 2) || (36 <? R0)) then NaN
  else
    let stripPrefix := (R0 =? 0) || (R0 =? 16) in
    let R := if R0 =? 0 then 10 else R0 in
    let '(R, s) :=
      match (if stripPrefix then strip_0x s else None) with
      | Some rest => (16, rest)
      | None => (R, s)
      end in
    match digits_prefix R s with
    | [] => NaN
    | ds => to_double (sign * math_int R ds)
    end.

(** *** [Number.prototype.toString] *)

Fixpoint radix_digits (fuel : nat) (R n : Z) (acc : string) : string :=
  match fuel with
  | O => acc
  | S fuel' =>
      let acc' := String (digit_char (n mod R)) acc in
      if n / R =? 0 then acc' else radix_digits fuel' R (n / R) acc'
  end.

(** The radix-[R] numeral of a natural number; its digits are fewer than
    its bits, which is the fuel. *)
Definition numeral (R n : Z) : string :=
  radix_digits (S (Z.to_nat (Z.log2 n))) R n "".

(** [x.toString(R)].  In radix 10 the plain numeral is what the language
    prints for magnitudes below 10^21; beyond, it switches to exponent
    notation, which is not modelled. *)
Definition Number_toString (x : number) (R : Z) : string :=
  match x with
  | NaN => "NaN"
  | Inf false => "Infinity"
  | Inf true => "-Infinity"
  | Num z => if z <? 0 then "-" ++ numeral R (- z) else numeral R z
  end.

(** A number interpolated in a template literal *)
Definition interpolate (x : number) : string := Number_toString x 10.

(** *** String methods *)

(** The first [n] characters of [fill] repeated for ever, [cur] being
    what is left of the current copy. *)
Fixpoint filler (n : nat) (cur fill : string) : string :=
  match n with
  | O => ""
  | S n' =>
      match cur with
      | String c rest => String c (filler n' rest fill)
      | EmptyString =>
          match fill with
          | String c rest => String c (filler n' rest fill)
          | EmptyString => ""
          end
      end
  end.

(** [s.padStart(maxLength, fill)] *)
Definition padStart (s : string) (maxLength : nat) (fill : string) : string :=
  if (maxLength <=? String.length s)%nat then s
  else filler (maxLength - String.length s) fill fill ++ s.

(** [s.replace(/^#/, "")] *)
Definition replace_leading_hash (s : string) : string :=
  match s with
  | String c rest => if (c =? "#")%char then rest else s
  | EmptyString => s
  end.

(** [[0-9a-f]] under the [i] flag *)
Definition hex_class (c : ascii) : bool :=
  let n := code c in
  ((48 <=? n) && (n <=? 57)) || ((97 <=? n) && (n <=? 102))
  || ((65 <=? n) && (n <=? 70)).

(** [[0-9a-f]{3}] at the start of [s]; what follows the match *)
Definition hex_triple (s : string) : option string :=
  match s with
  | String a (String b (String c rest)) =>
      if hex_class a && hex_class b && hex_class c then Some rest else None
  | _ => None
  end.

(** [/^#([0-9a-f]{3}){1,2}$/i.test(s)] *)
Definition hex_colour_pattern_test (s : string) : bool :=
  match s with
  | String c rest =>
      (c =? "#")%char &&
      match hex_triple rest with
      | Some EmptyString => true
      | Some rest' =>
          match hex_triple rest' with
          | Some EmptyString => true
          | _ => false
          end
      | None => false
      end
  | EmptyString => false
  end.

(** [xs.join(sep)] on an array of strings *)
Definition join (sep : string) (xs : list string) : string :=
  String.concat sep xs.

(** [String.raw(strings, ...substitutions)] *)
Fixpoint String_raw (raw : list string) (subs : list string) : string :=
  match raw with
  | [] => ""
  | [r] => r
  | r :: raw' =>
      match subs with
      | [] => r ++ String_raw raw' []
      | v :: subs' => r ++ v ++ String_raw raw' subs'
      end
  end.

End Js.

Import Js.

(** ** [mod.ts] *)

(** [enum Color]: the constants and their string values *)
Inductive Color : Type :=
| BLACK | RED | GREEN | YELLOW | BLUE | MAGENTA | CYAN | WHITE
| BRIGHT_BLACK | BRIGHT_RED | BRIGHT_GREEN | BRIGHT_YELLOW
| BRIGHT_BLUE | BRIGHT_MAGENTA | BRIGHT_CYAN | BRIGHT_WHITE.

Definition Color_value (c : Color) : string :=
  match c with
  | BLACK => "30"
  | RED => "31"
  | GREEN => "32"
  | YELLOW => "33"
  | BLUE => "34"
  | MAGENTA => "35"
  | CYAN => "36"
  | WHITE => "37"
  | BRIGHT_BLACK => "90"
  | BRIGHT_RED => "91"
  | BRIGHT_GREEN => "92"
  | BRIGHT_YELLOW => "93"
  | BRIGHT_BLUE => "94"
  | BRIGHT_MAGENTA => "95"
  | BRIGHT_CYAN => "96"
  | BRIGHT_WHITE => "97"
  end.

(** The argument of the hex functions: [number | string] *)
Inductive HexArg : Type :=
| HexNum (n : number)
| HexStr (s : string).

(** [Hex] *)
Definition Hex (hex : HexArg) : string :=
  match hex with
  | HexStr s => padStart (replace_leading_hash s) 6 "0"
  | HexNum n => padStart (Number_toString n 16) 6 "0"
  end.

(** [RGB] *)
Definition RGB (r g b : number) : string :=
  interpolate r ++ ";" ++ interpolate g ++ ";" ++ interpolate b.

Definition InvalidHexColor : Error := JsError "Invalid hex color".
Definition InvalidColorCode : Error := JsError "Invalid color code".

(** [HexToRGB] *)
Definition HexToRGB (hex : string) : result string :=
  if hex_colour_pattern_test hex then Throw InvalidHexColor
  else
    let num := parseInt hex (Num 16) in
    let r := sar num (Num 16) in
    let g := band (sar num (Num 8)) (Num 255) in
    let b := band num (Num 255) in
    Ok (RGB r g b).

(** [enum Style] *)
Inductive Style : Type :=
| BOLD | DIM | ITALIC | UNDERLINE | BLINK | INVERT | HIDDEN | STRIKE.

Definition Style_value (s : Style) : string :=
  match s with
  | BOLD => "1"
  | DIM => "2"
  | ITALIC => "3"
  | UNDERLINE => "4"
  | BLINK => "5"
  | INVERT => "7"
  | HIDDEN => "8"
  | STRIKE => "9"
  end.

(** [class CLW]: the fields of an instance *)
Record CLW : Type := mkCLW {
  str : string;
  color : string;
  bgColor : string;
  style : list string
}.

(** [new CLW(str)] *)
Definition new_CLW (s : string) : CLW :=
  {| str := s; color := ""; bgColor := ""; style := [] |}.

Definition set_color (v : string) (this : CLW) : CLW :=
  {| str := str this; color := v; bgColor := bgColor this; style := style this |}.

Definition set_bgColor (v : string) (this : CLW) : CLW :=
  {| str := str this; color := color this; bgColor := v; style := style this |}.

Definition set_style (v : list string) (this : CLW) : CLW :=
  {| str := str this; color := color this; bgColor := bgColor this; style := v |}.

(** A string in a condition: true unless empty *)
Definition truthy (s : string) : bool :=
  match s with
  | EmptyString => false
  | _ => true
  end.

Definition ESC : string := String (char_of 27) "".

(** The array [codes] that [toString] builds *)
Definition codes (this : CLW) : list string :=
  let codes : list string := [] in
  let codes :=
    if truthy (color this) then (codes ++ [color this])%list else codes in
  let codes :=
    if (0 <? List.length (style this))%nat
    then (codes ++ [join ";" (style this)])%list else codes in
  let codes :=
    if truthy (bgColor this) then (codes ++ [bgColor this])%list else codes in
  codes.

(** [CLW.toString] *)
Definition toString (this : CLW) : string :=
  let codes := codes this in
  if (List.length codes =? 0)%nat then str this
  else ESC ++ "[" ++ join ";" codes ++ "m" ++ str this ++ ESC ++ "[0m".

(** [CLW.colorToAnsii] *)
Definition colorToAnsii (color : Color) (bg : bool) : result string :=
  let colorCode :=
    add (parseInt (Color_value color) (Num 0)) (Num (if bg then 10 else 0)) in
  if isNaN colorCode then Throw InvalidColorCode
  else Ok (Number_toString colorCode 10).

(** [CLW.text] *)
Definition text (color : Color) (this : CLW) : result CLW :=
  let* v := colorToAnsii color false in
  Ok (set_color v this).

(** [CLW.text_hex] *)
Definition text_hex (hex : HexArg) (this : CLW) : result CLW :=
  let* rgb := HexToRGB (Hex hex) in
  Ok (set_color ("38;2;" ++ rgb) this).

(** [CLW.text_rgb] *)
Definition text_rgb (r g b : number) (this : CLW) : result CLW :=
  Ok (set_color ("38;2;" ++ RGB r g b) this).

(** [CLW.text_256] *)
Definition text_256 (color : number) (this : CLW) : result CLW :=
  Ok (set_color ("38;5;" ++ interpolate color) this).

(** [CLW.bg] *)
Definition bg (color : Color) (this : CLW) : result CLW :=
  let* v := colorToAnsii color true in
  Ok (set_bgColor v this).

(** [CLW.bg_hex] *)
Definition bg_hex (hex : HexArg) (this : CLW) : result CLW :=
  let* rgb := HexToRGB (Hex hex) in
  Ok (set_bgColor ("48;2;" ++ rgb) this).

(** [CLW.bg_rgb] *)
Definition bg_rgb (r g b : number) (this : CLW) : result CLW :=
  Ok (set_bgColor ("48;2;" ++ RGB r g b) this).

(** [CLW.bg_256] *)
Definition bg_256 (color : number) (this : CLW) : result CLW :=
  Ok (set_bgColor ("48;5;" ++ interpolate color) this).

(** [CLW.font]: [push] appends to the array held by the instance *)
Definition font (s : Style) (this : CLW) : result CLW :=
  Ok (set_style (style this ++ [Style_value s])%list this).

(** [CLW.reset] *)
Definition reset (this : CLW) : result CLW :=
  Ok (set_style [] (set_bgColor "" (set_color "" this))).

(** *** The public methods for the named colours and the styles

    The class has no [text_bright_black] and no [bg_bright_black]. *)

Definition text_red : CLW -> result CLW := text RED.
Definition text_green : CLW -> result CLW := text GREEN.
Definition text_yellow : CLW -> result CLW := text YELLOW.
Definition text_blue : CLW -> result CLW := text BLUE.
Definition text_magenta : CLW -> result CLW := text MAGENTA.
Definition text_cyan : CLW -> result CLW := text CYAN.
Definition text_white : CLW -> result CLW := text WHITE.
Definition text_black : CLW -> result CLW := text BLACK.
Definition text_bright_red : CLW -> result CLW := text BRIGHT_RED.
Definition text_bright_green : CLW -> result CLW := text BRIGHT_GREEN.
Definition text_bright_yellow : CLW -> result CLW := text BRIGHT_YELLOW.
Definition text_bright_blue : CLW -> result CLW := text BRIGHT_BLUE.
Definition text_bright_magenta : CLW -> result CLW := text BRIGHT_MAGENTA.
Definition text_bright_cyan : CLW -> result CLW := text BRIGHT_CYAN.
Definition text_bright_white : CLW -> result CLW := text BRIGHT_WHITE.

Definition bg_red : CLW -> result CLW := bg RED.
Definition bg_green : CLW -> result CLW := bg GREEN.
Definition bg_yellow : CLW -> result CLW := bg YELLOW.
Definition bg_blue : CLW -> result CLW := bg BLUE.
Definition bg_magenta : CLW -> result CLW := bg MAGENTA.
Definition bg_cyan : CLW -> result CLW := bg CYAN.
Definition bg_white : CLW -> result CLW := bg WHITE.
Definition bg_black : CLW -> result CLW := bg BLACK.
Definition bg_bright_red : CLW -> result CLW := bg BRIGHT_RED.
Definition bg_bright_green : CLW -> result CLW := bg BRIGHT_GREEN.
Definition bg_bright_yellow : CLW -> result CLW := bg BRIGHT_YELLOW.
Definition bg_bright_blue : CLW -> result CLW := bg BRIGHT_BLUE.
Definition bg_bright_magenta : CLW -> result CLW := bg BRIGHT_MAGENTA.
Definition bg_bright_cyan : CLW -> result CLW := bg BRIGHT_CYAN.
Definition bg_bright_white : CLW -> result CLW := bg BRIGHT_WHITE.

Definition font_bold : CLW -> result CLW := font BOLD.
Definition font_dim : CLW -> result CLW := font DIM.
Definition font_italic : CLW -> result CLW := font ITALIC.
Definition font_underline : CLW -> result CLW := font UNDERLINE.
Definition font_blink : CLW -> result CLW := font BLINK.
Definition font_invert : CLW -> result CLW := font INVERT.
Definition font_hidden : CLW -> result CLW := font HIDDEN.
Definition font_strike : CLW -> result CLW := font STRIKE.

(** [CLW.log]: [console.log] adds one line to the output *)
Definition log (this : CLW) (console : list string) : list string :=
  (console ++ [toString this])%list.

(** [clw]: the tagged template; the substitutions are taken as the strings
    they convert to. *)
Definition clw (raw : list string) (args : list string) : CLW :=
  new_CLW (String_raw raw args).

(** ** Calls on a builder *)

(** The named colours that have a public method of each kind *)
Inductive Named : Type :=
| N_red
| N_green
| N_yellow
| N_blue
| N_magenta
| N_cyan
| N_white
| N_black
| N_bright_red
| N_bright_green
| N_bright_yellow
| N_bright_blue
| N_bright_magenta
| N_bright_cyan
| N_bright_white.

Definition Named_color (n : Named) : Color :=
  match n with
  | N_red => RED
  | N_green => GREEN
  | N_yellow => YELLOW
  | N_blue => BLUE
  | N_magenta => MAGENTA
  | N_cyan => CYAN
  | N_white => WHITE
  | N_black => BLACK
  | N_bright_red => BRIGHT_RED
  | N_bright_green => BRIGHT_GREEN
  | N_bright_yellow => BRIGHT_YELLOW
  | N_bright_blue => BRIGHT_BLUE
  | N_bright_magenta => BRIGHT_MAGENTA
  | N_bright_cyan => BRIGHT_CYAN
  | N_bright_white => BRIGHT_WHITE
  end.

Definition text_named (n : Named) : CLW -> result CLW :=
  match n with
  | N_red => text_red
  | N_green => text_green
  | N_yellow => text_yellow
  | N_blue => text_blue
  | N_magenta => text_magenta
  | N_cyan => text_cyan
  | N_white => text_white
  | N_black => text_black
  | N_bright_red => text_bright_red
  | N_bright_green => text_bright_green
  | N_bright_yellow => text_bright_yellow
  | N_bright_blue => text_bright_blue
  | N_bright_magenta => text_bright_magenta
  | N_bright_cyan => text_bright_cyan
  | N_bright_white => text_bright_white
  end.

Definition bg_named (n : Named) : CLW -> result CLW :=
  match n with
  | N_red => bg_red
  | N_green => bg_green
  | N_yellow => bg_yellow
  | N_blue => bg_blue
  | N_magenta => bg_magenta
  | N_cyan => bg_cyan
  | N_white => bg_white
  | N_black => bg_black
  | N_bright_red => bg_bright_red
  | N_bright_green => bg_bright_green
  | N_bright_yellow => bg_bright_yellow
  | N_bright_blue => bg_bright_blue
  | N_bright_magenta => bg_bright_magenta
  | N_bright_cyan => bg_bright_cyan
  | N_bright_white => bg_bright_white
  end.

Definition font_named (s : Style) : CLW -> result CLW :=
  match s with
  | BOLD => font_bold
  | DIM => font_dim
  | ITALIC => font_italic
  | UNDERLINE => font_underline
  | BLINK => font_blink
  | INVERT => font_invert
  | HIDDEN => font_hidden
  | STRIKE => font_strike
  end.

(** A call of one of the public methods that set a field and return
    [this] *)
Inductive Setter : Type :=
| Text (n : Named)
| TextHex (hex : HexArg)
| TextRgb (r g b : number)
| Text256 (color : number)
| Bg (n : Named)
| BgHex (hex : HexArg)
| BgRgb (r g b : number)
| Bg256 (color : number)
| Font (s : Style).

Definition set (c : Setter) : CLW -> result CLW :=
  match c with
  | Text n => text_named n
  | TextHex hex => text_hex hex
  | TextRgb r g b => text_rgb r g b
  | Text256 n => text_256 n
  | Bg n => bg_named n
  | BgHex hex => bg_hex hex
  | BgRgb r g b => bg_rgb r g b
  | Bg256 n => bg_256 n
  | Font s => font_named s
  end.

(** A chain [this.c1().c2()...]: the first throw ends it *)
Fixpoint chain (cs : list Setter) (this : CLW) : result CLW :=
  match cs with
  | [] => Ok this
  | c :: cs' => let* this' := set c this in chain cs' this'
  end.

(** The string a chain ending in [.toString()] evaluates to *)
Definition render (cs : list Setter) (this : CLW) : result string :=
  let* this' := chain cs this in Ok (toString this').

(** Any call of the public interface *)
Inductive Method : Type :=
| M_set (c : Setter)
| M_reset
| M_toString
| M_log.

Inductive Returned : Type :=
| Ret_this
| Ret_string (s : string)
| Ret_void.

(** The builder and the console, which is all a call can reach *)
Record World : Type := mkWorld {
  self : CLW;
  console : list string
}.

Definition invoke (m : Method) (w : World) : result (Returned * World) :=
  match m with
  | M_set c =>
      let* this' := set c (self w) in
      Ok (Ret_this, {| self := this'; console := console w |})
  | M_reset =>
      let* this' := reset (self w) in
      Ok (Ret_this, {| self := this'; console := console w |})
  | M_toString => Ok (Ret_string (toString (self w)), w)
  | M_log =>
      Ok (Ret_void, {| self := self w; console := log (self w) (console w) |})
  end.

(** The world after a call whose throw, if any, the caller catches *)
Definition after (m : Method) (w : World) : World :=
  match invoke m w with
  | Ok (_, w') => w'
  | Throw _ => w
  end.

Definition after_all (ms : list Method) (w : World) : World :=
  fold_left (fun w m => after m w) ms w.

(** ** Vocabulary of the properties *)

(** The numeric code the escape-code table gives each colour name *)
Definition documented_code (c : Color) : Z :=
  match c with
  | BLACK => 30 | RED => 31 | GREEN => 32 | YELLOW => 33
  | BLUE => 34 | MAGENTA => 35 | CYAN => 36 | WHITE => 37
  | BRIGHT_BLACK => 90 | BRIGHT_RED => 91 | BRIGHT_GREEN => 92
  | BRIGHT_YELLOW => 93 | BRIGHT_BLUE => 94 | BRIGHT_MAGENTA => 95
  | BRIGHT_CYAN => 96 | BRIGHT_WHITE => 97
  end.

Definition bright (c : Color) : bool :=
  match c with
  | BLACK | RED | GREEN | YELLOW | BLUE | MAGENTA | CYAN | WHITE => false
  | _ => true
  end.

(** [ESC[<params>m<text>ESC[0m] *)
Definition wrapped (params text : string) : string :=
  ESC ++ "[" ++ params ++ "m" ++ text ++ ESC ++ "[0m".

Fixpoint all_hex (s : string) : bool :=
  match s with
  | EmptyString => true
  | String c rest => hex_class c && all_hex rest
  end.

(** Two number signs and then exactly six hex digits *)
Definition double_hash_six (x : HexArg) : Prop :=
  exists h, x = HexStr ("##" ++ h) /\ String.length h = 6%nat /\ all_hex h = true.

(** A hex colour as the module is written to take it: a 24-bit number,
    or three or six hex digits with or without one leading number sign *)
Definition well_formed_hex (x : HexArg) : Prop :=
  match x with
  | HexNum (Num n) => 0 <= n < 2 ^ 24
  | HexNum _ => False
  | HexStr s =>
      exists h : string,
        (s = h \/ s = "#" ++ h) /\ all_hex h = true /\
        (String.length h = 3%nat \/ String.length h = 6%nat)
  end.

(** The field a setter writes *)
Inductive Slot : Type := Foreground | Styles | Background.

Definition slot (c : Setter) : Slot :=
  match c with
  | Text _ | TextHex _ | TextRgb _ _ _ | Text256 _ => Foreground
  | Bg _ | BgHex _ | BgRgb _ _ _ | Bg256 _ => Background
  | Font _ => Styles
  end.

Definition Slot_eqb (a b : Slot) : bool :=
  match a, b with
  | Foreground, Foreground | Styles, Styles | Background, Background => true
  | _, _ => false
  end.

(** The calls of [cs] that write the field [sl], in the order of [cs] *)
Definition calls_on (sl : Slot) (cs : list Setter) : list Setter :=
  filter (fun c => Slot_eqb (slot c) sl) cs.

(** What a setter stores, and where *)
Definition stored (c : Setter) : result string :=
  match c with
  | Text n => colorToAnsii (Named_color n) false
  | TextHex hex => let* rgb := HexToRGB (Hex hex) in Ok ("38;2;" ++ rgb)
  | TextRgb r g b => Ok ("38;2;" ++ RGB r g b)
  | Text256 n => Ok ("38;5;" ++ interpolate n)
  | Bg n => colorToAnsii (Named_color n) true
  | BgHex hex => let* rgb := HexToRGB (Hex hex) in Ok ("48;2;" ++ rgb)
  | BgRgb r g b => Ok ("48;2;" ++ RGB r g b)
  | Bg256 n => Ok ("48;5;" ++ interpolate n)
  | Font s => Ok (Style_value s)
  end.

Definition store (sl : Slot) (v : string) (this : CLW) : CLW :=
  match sl with
  | Foreground => set_color v this
  | Background => set_bgColor v this
  | Styles => set_style (style this ++ [v])%list this
  end.

Definition throwing (c : Setter) : bool :=
  match stored c with
  | Ok _ => false
  | Throw _ => true
  end.

(** The strings the calls of [cs] store in the field [sl], in order *)
Fixpoint values (sl : Slot) (cs : list Setter) : list string :=
  match cs with
  | [] => []
  | c :: cs' =>
      match stored c with
      | Ok v => if Slot_eqb (slot c) sl then v :: values sl cs' else values sl cs'
      | Throw _ => values sl cs'
      end
  end.

(** The number a string of hex digits denotes *)
Definition hex_value (s : string) : Z := math_int 16 (digits_prefix 16 s).

(** The three channels of a 24-bit colour as [RGB] prints them: bits
    16..23, bits 8..15 and bits 0..7. *)
Definition channels (v : Z) : string :=
  RGB (Num (Z.land (Z.shiftr v 16) 255))
      (Num (Z.land (Z.shiftr v 8) 255))
      (Num (Z.land v 255)).

Definition starts_hex (s : string) : bool :=
  match s with
  | String c _ => hex_class c
  | EmptyString => false
  end.

(** A string of zeros *)
Fixpoint all_zero (s : string) : bool :=
  match s with
  | EmptyString => true
  | String c rest => (c =? "0")%char && all_zero rest
  end.

(** A hex setter whose argument [HexToRGB] rejects *)
Definition rejected (c : Setter) : Prop :=
  match c with
  | TextHex x | BgHex x => double_hash_six x
  | _ => False
  end.

Definition is_log (m : Method) : bool :=
  match m with
  | M_log => true
  | _ => false
  end.

(** A digit of radix [R] *)
Definition digit_below (R : Z) (c : ascii) : bool :=
  match digit_value c with
  | Some d => d <? R
  | None => false
  end.

Fixpoint all_digits (R : Z) (s : string) : bool :=
  match s with
  | EmptyString => true
  | String c rest => digit_below R c && all_digits R rest
  end.

(** ** Proofs *)

(** *** Rendering *)

Lemma toString_unset (this : CLW) :
  color this = "" -> style this = [] -> bgColor this = "" ->
  toString this = str this.
Proof.
  intros Hc Hs Hb. unfold toString, codes. rewrite Hc, Hs, Hb. reflexivity.
Qed.

Lemma truthy_true (s : string) : truthy s = true <-> s <> "".
Proof. destruct s; simpl; split; congruence. Qed.

Lemma toString_all_set (this : CLW) :
  color this <> "" -> style this <> [] -> bgColor this <> "" ->
  toString this =
  wrapped (color this ++ ";" ++ join ";" (style this) ++ ";" ++ bgColor this)
          (str this).
Proof.
  intros Hc Hs Hb. unfold toString, codes, wrapped.
  apply truthy_true in Hc, Hb. rewrite Hc, Hb.
  destruct (style this) as [|x xs] eqn:E; [congruence|].
  reflexivity.
Qed.

(** *** Named colours *)

Lemma parseInt_Color_value (c : Color) :
  parseInt (Color_value c) (Num 0) = Num (documented_code c).
Proof. destruct c; reflexivity. Qed.

Lemma colorToAnsii_code (c : Color) (bg : bool) :
  colorToAnsii c bg = Ok (interpolate (Num (documented_code c + if bg then 10 else 0))).
Proof. destruct c, bg; reflexivity. Qed.

Lemma text_named_text (n : Named) : text_named n = text (Named_color n).
Proof. destruct n; reflexivity. Qed.

Lemma bg_named_bg (n : Named) : bg_named n = bg (Named_color n).
Proof. destruct n; reflexivity. Qed.

Lemma font_named_font (s : Style) : font_named s = font s.
Proof. destruct s; reflexivity. Qed.

(** C8: every constant of the colour enumeration parses to a number, so
    [colorToAnsii] never takes its throwing branch, for the foreground or
    for the background. *)
Theorem C8_colorToAnsii_never_throws :
  forall (c : Color) (bg : bool),
    isNaN (parseInt (Color_value c) (Num 0)) = false /\
    isNaN (add (parseInt (Color_value c) (Num 0)) (Num (if bg then 10 else 0)))
      = false /\
    exists code : string, colorToAnsii c bg = Ok code.
Proof.
  intros c bg. split; [|split].
  - now rewrite parseInt_Color_value.
  - destruct c, bg; reflexivity.
  - rewrite colorToAnsii_code. eauto.
Qed.

(** C3: a named colour set as foreground renders ["X"] with the colour's
    code of the escape-code table, in 30..37 for a base colour and 90..97
    for a bright one; set as background it renders with that code plus 10.
    The public method of each colour name does the same. *)
Theorem C3_named_colour_codes :
  (forall c : Color,
     let code := documented_code c in
     (if bright c then 90 <= code <= 97 else 30 <= code <= 37) /\
     interpolate (Num code) = Color_value c /\
     (let* b := text c (new_CLW "X") in Ok (toString b))
       = Ok (wrapped (interpolate (Num code)) "X") /\
     (let* b := bg c (new_CLW "X") in Ok (toString b))
       = Ok (wrapped (interpolate (Num (code + 10))) "X")) /\
  (forall n : Named,
     let code := documented_code (Named_color n) in
     render [Text n] (new_CLW "X") = Ok (wrapped (interpolate (Num code)) "X") /\
     render [Bg n] (new_CLW "X") = Ok (wrapped (interpolate (Num (code + 10))) "X")).
Proof.
  split.
  - intros c; destruct c; cbn -[Z.le]; repeat split; lia.
  - intros n; destruct n; split; reflexivity.
Qed.

(** C5: a builder on which nothing was set renders as its text. *)
Theorem C5_unset_renders_text :
  forall (s : string) (raw args : list string),
    toString (new_CLW s) = s /\
    render [] (new_CLW s) = Ok s /\
    toString (clw raw args) = String_raw raw args.
Proof. intros. repeat split. Qed.

(** The scenarios of the module's test file *)
Lemma test_file_scenarios :
  let hello := new_CLW "Hello, world!" in
  render [Text N_blue] hello = Ok (wrapped "34" "Hello, world!") /\
  render [Bg N_blue] hello = Ok (wrapped "44" "Hello, world!") /\
  render [Font BLINK] hello = Ok (wrapped "5" "Hello, world!") /\
  render [Text N_blue; Font BLINK] hello = Ok (wrapped "34;5" "Hello, world!") /\
  render [Text N_blue; Bg N_blue] hello = Ok (wrapped "34;44" "Hello, world!") /\
  render [Bg N_blue; Font BLINK] hello = Ok (wrapped "5;44" "Hello, world!") /\
  render [Text N_blue; Bg N_blue; Font BLINK] hello
    = Ok (wrapped "34;5;44" "Hello, world!").
Proof. cbv zeta. repeat split. Qed.

(** *** What a call does to the fields *)

Lemma set_stored (c : Setter) (this : CLW) :
  set c this = let* v := stored c in Ok (store (slot c) v this).
Proof.
  destruct c as [n| | | |n| | | |s]; simpl;
    try rewrite text_named_text; try rewrite bg_named_bg;
    try rewrite font_named_font; try reflexivity.
  - unfold text_hex. now destruct (HexToRGB (Hex hex)).
  - unfold bg_hex. now destruct (HexToRGB (Hex hex)).
Qed.

Lemma str_store (sl : Slot) (v : string) (this : CLW) :
  str (store sl v this) = str this.
Proof. now destruct sl. Qed.

Lemma set_str (c : Setter) (this this' : CLW) :
  set c this = Ok this' -> str this' = str this.
Proof.
  rewrite set_stored. destruct (stored c); simpl; [|discriminate].
  intros [= <-]. apply str_store.
Qed.

Lemma chain_str (cs : list Setter) :
  forall this this', chain cs this = Ok this' -> str this' = str this.
Proof.
  induction cs as [|c cs IH]; simpl; intros this this' H.
  - now injection H as <-.
  - destruct (set c this) as [mid|] eqn:E; simpl in H; [|discriminate].
    rewrite (IH _ _ H). eapply set_str; eauto.
Qed.

Lemma invoke_str (m : Method) (w : World) (r : Returned) (w' : World) :
  invoke m w = Ok (r, w') -> str (self w') = str (self w).
Proof.
  destruct m; simpl.
  - destruct (set c (self w)) eqn:E; simpl; [|discriminate].
    intros [= _ <-]. simpl. eapply set_str; eauto.
  - intros [= _ <-]. reflexivity.
  - now intros [= _ <-].
  - now intros [= _ <-].
Qed.

Lemma after_str (m : Method) (w : World) : str (self (after m w)) = str (self w).
Proof.
  unfold after. destruct (invoke m w) as [[r w']|] eqn:E; [|reflexivity].
  eapply invoke_str; eauto.
Qed.

Lemma after_all_str (ms : list Method) :
  forall w, str (self (after_all ms w)) = str (self w).
Proof.
  unfold after_all.
  induction ms as [|m ms IH]; simpl; intros w; [reflexivity|].
  rewrite IH. apply after_str.
Qed.

Lemma after_all_chain (cs : list Setter) :
  forall w this', chain cs (self w) = Ok this' ->
    after_all (map M_set cs) w = {| self := this'; console := console w |}.
Proof.
  unfold after_all.
  induction cs as [|c cs IH]; simpl; intros w this' H.
  - injection H as <-. now destruct w.
  - destruct (set c (self w)) as [mid|] eqn:E; simpl in H; [|discriminate].
    unfold after at 2. simpl. rewrite E. simpl.
    now rewrite (IH {| self := mid; console := console w |} this' H).
Qed.

(** C7: no call of the public interface changes the text of the builder,
    whether it returns or throws: not one call, not any sequence of calls.
    [toString] and [log] leave the whole builder as it was. *)
Theorem C7_text_never_modified :
  (forall (m : Method) (w : World), str (self (after m w)) = str (self w)) /\
  (forall (ms : list Method) (w : World),
     str (self (after_all ms w)) = str (self w)) /\
  (forall w : World,
     self (after M_toString w) = self w /\ self (after M_log w) = self w).
Proof.
  split; [exact after_str|]. split; [exact after_all_str|].
  intros w. split; reflexivity.
Qed.

(** C6: after any sequence of setter calls, thrown errors caught or not,
    [reset] leaves the builder as [new CLW] of the same text leaves it: its
    text is unchanged and it renders as that text. *)
Theorem C6_reset_restores_unset :
  forall (cs : list Setter) (w : World),
    let w' := after M_reset (after_all (map M_set cs) w) in
    self w' = new_CLW (str (self w)) /\
    str (self w') = str (self w) /\
    toString (self w') = str (self w).
Proof.
  intros cs w w'.
  assert (H : self w' = new_CLW (str (self w))).
  { subst w'. unfold after. simpl.
    unfold set_style, set_bgColor, set_color, new_CLW. simpl. f_equal.
    apply after_all_str. }
  rewrite H. repeat split.
Qed.

(** The same in a chain that runs to its end *)
Lemma chain_reset (cs : list Setter) (this this' : CLW) :
  chain cs this = Ok this' ->
  reset this' = Ok (new_CLW (str this)) /\
  (let* r := reset this' in Ok (toString r)) = Ok (str this).
Proof.
  intros H. apply chain_str in H.
  unfold reset, set_style, set_bgColor, set_color, new_CLW. simpl.
  now rewrite H.
Qed.

(** *** Chains of setters *)

Lemma HexToRGB_throw (hex : string) (e : Error) :
  HexToRGB hex = Throw e -> e = InvalidHexColor.
Proof.
  unfold HexToRGB. destruct (hex_colour_pattern_test hex); congruence.
Qed.

Lemma stored_throw (c : Setter) (e : Error) :
  stored c = Throw e -> e = InvalidHexColor /\ slot c <> Styles.
Proof.
  destruct c; simpl; try discriminate.
  - now rewrite colorToAnsii_code.
  - destruct (HexToRGB (Hex hex)) eqn:E; simpl; [discriminate|].
    intros [= <-]. split; [eapply HexToRGB_throw; eauto | discriminate].
  - now rewrite colorToAnsii_code.
  - destruct (HexToRGB (Hex hex)) eqn:E; simpl; [discriminate|].
    intros [= <-]. split; [eapply HexToRGB_throw; eauto | discriminate].
Qed.

Lemma stored_nonempty (c : Setter) (v : string) : stored c = Ok v -> v <> "".
Proof.
  destruct c; simpl; try (intros [= <-]; discriminate).
  - destruct n; intros [= <-]; discriminate.
  - destruct (HexToRGB (Hex hex)); simpl; intros [= <-]; discriminate.
  - destruct n; intros [= <-]; discriminate.
  - destruct (HexToRGB (Hex hex)); simpl; intros [= <-]; discriminate.
  - destruct s; intros [= <-]; discriminate.
Qed.

Lemma chain_throw (cs : list Setter) :
  forall this e, chain cs this = Throw e ->
    e = InvalidHexColor /\ existsb throwing cs = true.
Proof.
  induction cs as [|c cs IH]; simpl; intros this e H; [discriminate|].
  rewrite set_stored in H. unfold throwing at 1.
  destruct (stored c) as [v|e'] eqn:E; simpl in H |- *.
  - eapply IH; eauto.
  - injection H as <-. split; [|reflexivity]. eapply stored_throw; eauto.
Qed.

Lemma chain_ok (cs : list Setter) :
  forall this this', chain cs this = Ok this' -> existsb throwing cs = false.
Proof.
  induction cs as [|c cs IH]; simpl; intros this this' H; [reflexivity|].
  rewrite set_stored in H. unfold throwing at 1.
  destruct (stored c) as [v|e'] eqn:E; simpl in H |- *; [|discriminate].
  eapply IH; eauto.
Qed.

Lemma chain_total (cs : list Setter) :
  forall this, existsb throwing cs = false -> exists this', chain cs this = Ok this'.
Proof.
  induction cs as [|c cs IH]; simpl; intros this H; [eauto|].
  rewrite set_stored. unfold throwing in H at 1.
  destruct (stored c) as [v|e'] eqn:E; simpl in H |- *; [|discriminate].
  now apply IH.
Qed.

Lemma last_cons {A : Type} (l : list A) (a d : A) : last (a :: l) d = last l a.
Proof.
  revert a d. induction l as [|b l IH]; intros a d; [reflexivity|].
  change (last (a :: b :: l) d) with (last (b :: l) d). now rewrite !IH.
Qed.

Lemma last_In {A : Type} (l : list A) (d : A) : l <> [] -> In (last l d) l.
Proof.
  induction l as [|a l IH]; [congruence|]. intros _.
  destruct l as [|b l]; [now left|]. right.
  change (last (a :: b :: l) d) with (last (b :: l) d).
  apply IH. discriminate.
Qed.

(** The fields a chain leaves: the last colour stored in each colour
    field, and the styles appended in the order of the calls. *)
Lemma chain_fields (cs : list Setter) :
  forall this this', chain cs this = Ok this' ->
    color this' = last (values Foreground cs) (color this) /\
    bgColor this' = last (values Background cs) (bgColor this) /\
    style this' = (style this ++ values Styles cs)%list.
Proof.
  induction cs as [|c cs IH]; simpl; intros this this' H.
  - injection H as <-. now rewrite app_nil_r.
  - rewrite set_stored in H.
    destruct (stored c) as [v|e'] eqn:E; simpl in H; [|discriminate].
    destruct (IH _ _ H) as (Hc & Hb & Hs). rewrite Hc, Hb, Hs.
    destruct (slot c); cbn [Slot_eqb];
      unfold store, set_color, set_bgColor, set_style;
      cbn [color bgColor style];
      rewrite ?last_cons, <- ?app_assoc; auto.
Qed.

Lemma values_calls_on (sl : Slot) (cs : list Setter) :
  values sl (calls_on sl cs) = values sl cs.
Proof.
  unfold calls_on.
  induction cs as [|c cs IH]; simpl; [reflexivity|].
  destruct (Slot_eqb (slot c) sl) eqn:E; simpl.
  - rewrite E, IH. reflexivity.
  - rewrite IH. now destruct (stored c).
Qed.

Lemma throwing_calls_on (cs : list Setter) :
  existsb throwing cs =
  existsb throwing (calls_on Foreground cs)
  || existsb throwing (calls_on Background cs).
Proof.
  unfold calls_on.
  induction cs as [|c cs IH]; simpl; [reflexivity|]. rewrite IH.
  destruct (slot c) eqn:E; simpl.
  - now rewrite orb_assoc.
  - unfold throwing at 1. destruct (stored c) eqn:Es; [reflexivity|].
    apply stored_throw in Es. tauto.
  - destruct (throwing c); simpl; [now rewrite orb_true_r|reflexivity].
Qed.

Lemma values_In (sl : Slot) (cs : list Setter) (v : string) :
  In v (values sl cs) -> v <> "".
Proof.
  induction cs as [|c cs IH]; simpl; [tauto|].
  destruct (stored c) as [u|] eqn:E; [|exact IH].
  destruct (Slot_eqb (slot c) sl); [|exact IH].
  intros [<-|H]; [eapply stored_nonempty; eauto | auto].
Qed.

Lemma values_nonempty (sl : Slot) (cs : list Setter) :
  existsb throwing cs = false -> calls_on sl cs <> [] -> values sl cs <> [].
Proof.
  unfold calls_on.
  induction cs as [|c cs IH]; simpl; [tauto|].
  unfold throwing at 1.
  destruct (stored c) as [u|] eqn:E; simpl; [|discriminate].
  destruct (Slot_eqb (slot c) sl); [discriminate | exact IH].
Qed.

Lemma CLW_fields (a b : CLW) :
  str a = str b -> color a = color b -> bgColor a = bgColor b ->
  style a = style b -> a = b.
Proof. destruct a, b; simpl; congruence. Qed.

Lemma chain_same_calls (cs1 cs2 : list Setter) (this : CLW) :
  (forall sl, calls_on sl cs1 = calls_on sl cs2) ->
  chain cs1 this = chain cs2 this.
Proof.
  intros Hsl.
  assert (Ht : existsb throwing cs1 = existsb throwing cs2)
    by now rewrite (throwing_calls_on cs1), (throwing_calls_on cs2), !Hsl.
  assert (Hv : forall sl, values sl cs1 = values sl cs2).
  { intros sl. now rewrite <- (values_calls_on sl cs1), Hsl, values_calls_on. }
  destruct (chain cs1 this) as [b1|e1] eqn:E1.
  - pose proof (chain_ok _ _ _ E1) as Hno. rewrite Ht in Hno.
    destruct (chain_total cs2 this Hno) as [b2 E2]. rewrite E2. f_equal.
    pose proof (chain_str _ _ _ E1). pose proof (chain_str _ _ _ E2).
    destruct (chain_fields _ _ _ E1) as (? & ? & ?).
    destruct (chain_fields _ _ _ E2) as (? & ? & ?).
    apply CLW_fields; rewrite ?Hv in *; congruence.
  - destruct (chain_throw _ _ _ E1) as [-> Hyes]. rewrite Ht in Hyes.
    destruct (chain cs2 this) as [b2|e2] eqn:E2.
    + apply chain_ok in E2. congruence.
    + apply chain_throw in E2. destruct E2 as [-> _]. reflexivity.
Qed.

(** Sequences that make the same calls on each field are permutations
    of each other. *)
Lemma calls_on_Permutation (cs : list Setter) :
  Permutation cs
    (calls_on Foreground cs ++ calls_on Styles cs ++ calls_on Background cs).
Proof.
  unfold calls_on.
  induction cs as [|c cs IH]; simpl; [constructor|].
  destruct (slot c); simpl.
  - now constructor.
  - etransitivity; [apply perm_skip, IH|]. apply Permutation_middle.
  - etransitivity; [apply perm_skip, IH|].
    rewrite !app_assoc. apply Permutation_middle.
Qed.

Lemma same_calls_Permutation (cs1 cs2 : list Setter) :
  (forall sl, calls_on sl cs1 = calls_on sl cs2) -> Permutation cs1 cs2.
Proof.
  intros H. rewrite (calls_on_Permutation cs1), (calls_on_Permutation cs2).
  now rewrite !H.
Qed.

(** C2, as the code has it: once a foreground, a style and a background
    have been set, the parameters are rendered in the order foreground,
    styles, background; and two sequences of setter calls render the same
    whenever they make the same calls on each field in the same relative
    order, however the calls on different fields are interleaved.  (The
    styles are rendered in the order of their calls, and the last colour
    set in a field is the one rendered.) *)
Theorem C2_fixed_order_of_fields :
  (forall (cs : list Setter) (this this' : CLW),
     chain cs this = Ok this' ->
     (forall sl, calls_on sl cs <> []) ->
     toString this' =
     wrapped (color this' ++ ";" ++ join ";" (style this') ++ ";" ++ bgColor this')
             (str this)) /\
  (forall (cs1 cs2 : list Setter) (this : CLW),
     (forall sl, calls_on sl cs1 = calls_on sl cs2) ->
     render cs1 this = render cs2 this).
Proof.
  split.
  - intros cs this this' H Hall.
    pose proof (chain_ok _ _ _ H) as Hno.
    pose proof (chain_str _ _ _ H) as Hstr.
    destruct (chain_fields _ _ _ H) as (Hc & Hb & Hs).
    rewrite <- Hstr. apply toString_all_set.
    + rewrite Hc. eapply values_In, last_In, values_nonempty; eauto.
    + rewrite Hs. intros E. apply app_eq_nil in E as [_ E].
      revert E. apply values_nonempty; auto.
    + rewrite Hb. eapply values_In, last_In, values_nonempty; eauto.
  - intros cs1 cs2 this H. unfold render.
    now rewrite (chain_same_calls cs1 cs2 this H).
Qed.

Lemma C2_fixed_order_of_fields_witness :
  (calls_on Foreground [Bg N_blue; Text N_blue; Font BLINK]
     = calls_on Foreground [Text N_blue; Font BLINK; Bg N_blue] /\
   calls_on Styles [Bg N_blue; Text N_blue; Font BLINK]
     = calls_on Styles [Text N_blue; Font BLINK; Bg N_blue] /\
   calls_on Background [Bg N_blue; Text N_blue; Font BLINK]
     = calls_on Background [Text N_blue; Font BLINK; Bg N_blue]) /\
  render [Bg N_blue; Text N_blue; Font BLINK] (new_CLW "X")
    = render [Text N_blue; Font BLINK; Bg N_blue] (new_CLW "X") /\
  chain [Bg N_blue; Text N_blue; Font BLINK] (new_CLW "X")
    = Ok (mkCLW "X" "34" "44" ["5"]) /\
  toString (mkCLW "X" "34" "44" ["5"]) = wrapped "34;5;44" "X".
Proof.
  split; [repeat split|]. split; [|split; [reflexivity|]].
  - apply (proj2 C2_fixed_order_of_fields).
    intros sl; destruct sl; reflexivity.
  - apply (proj1 C2_fixed_order_of_fields
             [Bg N_blue; Text N_blue; Font BLINK] (new_CLW "X")).
    + reflexivity.
    + intros sl; destruct sl; discriminate.
Defined.

(** C2 as stated fails: a permutation that swaps two style calls changes
    the rendered string. *)
Lemma C2_counterexample :
  Permutation [Text N_blue; Font BOLD; Font ITALIC; Bg N_blue]
              [Text N_blue; Font ITALIC; Font BOLD; Bg N_blue] /\
  render [Text N_blue; Font BOLD; Font ITALIC; Bg N_blue] (new_CLW "X")
    = Ok (wrapped "34;1;3;44" "X") /\
  render [Text N_blue; Font ITALIC; Font BOLD; Bg N_blue] (new_CLW "X")
    = Ok (wrapped "34;3;1;44" "X") /\
  render [Text N_blue; Font BOLD; Font ITALIC; Bg N_blue] (new_CLW "X")
    <> render [Text N_blue; Font ITALIC; Font BOLD; Bg N_blue] (new_CLW "X").
Proof.
  split; [|split; [reflexivity|split; [reflexivity|discriminate]]].
  apply perm_skip, perm_swap.
Qed.

(** *** Hex colours *)

Lemma all_hex_length_six (h : string) :
  all_hex h = true -> String.length h = 6%nat ->
  hex_triple h = Some (substring 3 3 h) /\ hex_triple (substring 3 3 h) = Some "".
Proof.
  destruct h as [|a [|b [|c [|d [|e [|f [|g h]]]]]]]; try discriminate.
  simpl. intros H _.
  repeat (apply andb_prop in H as [?H H]).
  repeat match goal with E : hex_class _ = true |- _ => rewrite E; clear E end.
  split; reflexivity.
Qed.

Lemma all_hex_length_three (h : string) :
  all_hex h = true -> String.length h = 3%nat -> hex_triple h = Some "".
Proof.
  destruct h as [|a [|b [|c [|d h]]]]; try discriminate.
  simpl. intros H _.
  repeat (apply andb_prop in H as [?H H]).
  repeat match goal with E : hex_class _ = true |- _ => rewrite E; clear E end.
  reflexivity.
Qed.

Lemma hex_triple_Some (s r : string) :
  hex_triple s = Some r ->
  exists a b c, s = String a (String b (String c r)) /\
    hex_class a = true /\ hex_class b = true /\ hex_class c = true.
Proof.
  destruct s as [|a [|b [|c s]]]; simpl; try discriminate.
  destruct (hex_class a) eqn:Ea, (hex_class b) eqn:Eb, (hex_class c) eqn:Ec;
    simpl; try discriminate.
  intros [= <-]. now exists a, b, c.
Qed.

Lemma pattern_test_true (t : string) :
  hex_colour_pattern_test t = true <->
  exists h, t = String "#" h /\ all_hex h = true /\
            (String.length h = 3%nat \/ String.length h = 6%nat).
Proof.
  split.
  - destruct t as [|c t]; simpl; [discriminate|].
    intros H. apply andb_prop in H as [Hc H].
    apply Ascii.eqb_eq in Hc as ->. exists t. split; [reflexivity|].
    destruct (hex_triple t) as [r|] eqn:E1; [|discriminate].
    apply hex_triple_Some in E1 as (a & b & c & -> & Ha & Hb & Hc).
    simpl. rewrite Ha, Hb, Hc. simpl.
    destruct r as [|x r]; [auto|].
    destruct (hex_triple (String x r)) as [r'|] eqn:E2; [|discriminate].
    destruct r' as [|y r']; [|discriminate].
    apply hex_triple_Some in E2 as (d & e & f & -> & Hd & He & Hf).
    simpl. rewrite Hd, He, Hf. auto.
  - intros (h & -> & Hh & [L|L]); simpl.
    + now rewrite (all_hex_length_three h Hh L).
    + destruct (all_hex_length_six h Hh L) as [E1 E2]. rewrite E1.
      destruct (substring 3 3 h) eqn:E; [reflexivity|]. now rewrite E2.
Qed.
Lemma padStart_zero (s : string) :
  (6 <= String.length s)%nat /\ padStart s 6 "0" = s \/
  (String.length s < 6)%nat /\ exists r, padStart s 6 "0" = String "0" r.
Proof.
  unfold padStart. destruct (6 <=? String.length s)%nat eqn:E.
  - left. split; [now apply Nat.leb_le | reflexivity].
  - right. apply Nat.leb_gt in E. split; [exact E|].
    destruct (6 - String.length s)%nat as [|k] eqn:Ek; [lia|].
    simpl. eauto.
Qed.

Lemma pattern_padStart (s : string) :
  hex_colour_pattern_test (padStart s 6 "0") = true ->
  (6 <= String.length s)%nat /\ hex_colour_pattern_test s = true.
Proof.
  destruct (padStart_zero s) as [[L ->]|[_ [r ->]]]; [auto|discriminate].
Qed.

Lemma digit_char_16 (d : Z) :
  0 <= d < 16 ->
  hex_class (digit_char d) = true /\ digit_value (digit_char d) = Some d.
Proof.
  intros H.
  assert (E : d = 0 \/ d = 1 \/ d = 2 \/ d = 3 \/ d = 4 \/ d = 5 \/ d = 6 \/
              d = 7 \/ d = 8 \/ d = 9 \/ d = 10 \/ d = 11 \/ d = 12 \/
              d = 13 \/ d = 14 \/ d = 15) by lia.
  repeat destruct E as [->|E]; try subst d; split; reflexivity.
Qed.

Lemma radix_digits_starts_hex (fuel : nat) :
  forall n acc, starts_hex acc = true ->
    starts_hex (radix_digits fuel 16 n acc) = true.
Proof.
  induction fuel as [|fuel IH]; simpl; intros n acc H; [exact H|].
  assert (Hd : starts_hex (String (digit_char (n mod 16)) acc) = true).
  { simpl. apply digit_char_16. apply Z.mod_pos_bound. lia. }
  destruct (n / 16 =? 0); [exact Hd|]. now apply IH.
Qed.

Lemma numeral_starts_hex (n : Z) : starts_hex (numeral 16 n) = true.
Proof.
  unfold numeral. cbn [radix_digits].
  assert (Hd : starts_hex (String (digit_char (n mod 16)) "") = true).
  { simpl. apply digit_char_16. apply Z.mod_pos_bound. lia. }
  destruct (n / 16 =? 0); [exact Hd|]. now apply radix_digits_starts_hex.
Qed.

Lemma pattern_toString (n : number) :
  hex_colour_pattern_test (Number_toString n 16) = false.
Proof.
  destruct n as [z| |[|]]; try reflexivity. simpl.
  destruct (z <? 0); [reflexivity|].
  pose proof (numeral_starts_hex z) as H.
  destruct (numeral 16 z) as [|c r]; [reflexivity|]. simpl in H |- *.
  destruct (Ascii.eqb_spec c "#") as [->|_]; [discriminate|reflexivity].
Qed.

Lemma pattern_Hex (x : HexArg) :
  hex_colour_pattern_test (Hex x) = true <-> double_hash_six x.
Proof.
  split.
  - destruct x as [n|s]; simpl; intros H; apply pattern_padStart in H as [L H].
    + now rewrite pattern_toString in H.
    + apply pattern_test_true in H as (h & E & Hh & Hl).
      destruct s as [|c s]; [discriminate|]. simpl in E, L.
      destruct (Ascii.eqb_spec c "#") as [->|Hc].
      * subst s. simpl in L. exists h. repeat split; auto.
        destruct Hl as [Hl|Hl]; [lia|exact Hl].
      * congruence.
  - intros (h & -> & Hl & Hh).
    change (Hex (HexStr ("##" ++ h))) with (padStart (String "#" h) 6 "0").
    unfold padStart. cbn [String.length]. rewrite Hl. cbn [Nat.leb].
    apply pattern_test_true. exists h. auto.
Qed.

Lemma hex_class_digit (c : ascii) :
  hex_class c = true -> exists d, digit_value c = Some d /\ 0 <= d < 16.
Proof.
  intros H.
  destruct c as [b0 b1 b2 b3 b4 b5 b6 b7].
  destruct b0, b1, b2, b3, b4, b5, b6, b7; cbv in H; try discriminate H;
    eexists; (split; [vm_compute; reflexivity | lia]).
Qed.

Lemma hex_class_plain (c : ascii) :
  hex_class c = true ->
  is_white_space c = false /\ (c =? "-")%char = false /\
  (c =? "+")%char = false /\ (c =? "x")%char = false /\
  (c =? "X")%char = false.
Proof.
  intros H.
  destruct c as [b0 b1 b2 b3 b4 b5 b6 b7].
  destruct b0, b1, b2, b3, b4, b5, b6, b7; cbv in H; try discriminate H;
    repeat split.
Qed.

Lemma math_int_from (R : Z) (ds : list Z) :
  forall a, fold_left (fun acc d => acc * R + d) ds a
            = a * R ^ Z.of_nat (List.length ds) + math_int R ds.
Proof.
  unfold math_int.
  induction ds as [|d ds IH]; intros a.
  - simpl. lia.
  - cbn [fold_left List.length]. rewrite (IH (a * R + d)), (IH (0 * R + d)).
    rewrite Nat2Z.inj_succ, Z.pow_succ_r by lia. ring.
Qed.

Lemma math_int_cons (R d : Z) (ds : list Z) :
  math_int R (d :: ds) = d * R ^ Z.of_nat (List.length ds) + math_int R ds.
Proof.
  unfold math_int at 1. cbn [fold_left]. rewrite math_int_from. f_equal.
Qed.

Lemma digits_prefix_all_hex (s : string) :
  all_hex s = true ->
  List.length (digits_prefix 16 s) = String.length s /\
  Forall (fun d => 0 <= d < 16) (digits_prefix 16 s).
Proof.
  induction s as [|c s IH]; simpl; intros H; [auto|].
  apply andb_prop in H as [Hc Hs]. destruct (IH Hs) as [L F].
  destruct (hex_class_digit c Hc) as (d & -> & Hd).
  destruct (Z.ltb_spec d 16); [|lia]. simpl. auto.
Qed.

Lemma hex_value_String (c : ascii) (s : string) (d : Z) :
  digit_value c = Some d -> 0 <= d < 16 -> all_hex s = true ->
  hex_value (String c s) = d * 16 ^ Z.of_nat (String.length s) + hex_value s.
Proof.
  intros Hc Hd Hs. unfold hex_value. simpl. rewrite Hc.
  destruct (Z.ltb_spec d 16); [|lia].
  rewrite math_int_cons. now destruct (digits_prefix_all_hex s Hs) as [-> _].
Qed.

Lemma hex_value_bound (s : string) :
  all_hex s = true -> 0 <= hex_value s < 16 ^ Z.of_nat (String.length s).
Proof.
  induction s as [|c s IH]; intros H.
  - cbv. split; congruence.
  - simpl in H. apply andb_prop in H as [Hc Hs].
    destruct (hex_class_digit c Hc) as (d & Ed & Hd).
    rewrite (hex_value_String c s d Ed Hd Hs).
    cbn [String.length]. rewrite Nat2Z.inj_succ, Z.pow_succ_r by lia.
    specialize (IH Hs). nia.
Qed.

(** [parseInt] in radix 16, its radix tests evaluated *)
Lemma parseInt_16 (input : string) :
  parseInt input (Num 16) =
  let (sign, s) := strip_sign (trim_start input) in
  let s := match strip_0x s with Some rest => rest | None => s end in
  match digits_prefix 16 s with
  | [] => NaN
  | ds => to_double (sign * math_int 16 ds)
  end.
Proof.
  unfold parseInt. destruct (strip_sign (trim_start input)) as [sign s].
  change (ToInt32 (Num 16)) with 16.
  change (negb (16 =? 0) && ((16 <? 2) || (36 <? 16))) with false.
  change ((16 =? 0) || (16 =? 16)) with true.
  cbv iota. destruct (strip_0x s); reflexivity.
Qed.

(** [parseInt] of a string of hex digits reads all of it. *)
Lemma parseInt_all_hex (s : string) :
  s <> "" -> all_hex s = true ->
  parseInt s (Num 16) = to_double (hex_value s).
Proof.
  intros Hne H. destruct s as [|c s]; [congruence|].
  pose proof H as H'. simpl in H'. apply andb_prop in H' as [Hc Hs].
  destruct (hex_class_plain c Hc) as (Hw & Hm & Hp & _).
  rewrite parseInt_16. cbn [trim_start]. rewrite Hw.
  unfold strip_sign. rewrite Hm, Hp.
  assert (E0 : strip_0x (String c s) = None).
  { unfold strip_0x. destruct s as [|x s]; [reflexivity|].
    simpl in Hs. apply andb_prop in Hs as [Hx _].
    destruct (hex_class_plain x Hx) as (_ & _ & _ & -> & ->).
    now rewrite andb_false_r. }
  rewrite E0. unfold hex_value.
  destruct (digits_prefix 16 (String c s)) as [|d ds] eqn:E.
  - exfalso. simpl in E. destruct (hex_class_digit c Hc) as (d & Ed & Hd).
    rewrite Ed in E. destruct (Z.ltb_spec d 16); [discriminate|lia].
  - now rewrite Z.mul_1_l.
Qed.

Lemma radix_digits_value (fuel : nat) :
  forall n acc,
    0 <= n < 16 ^ Z.of_nat fuel -> all_hex acc = true ->
    all_hex (radix_digits fuel 16 n acc) = true /\
    hex_value (radix_digits fuel 16 n acc)
      = n * 16 ^ Z.of_nat (String.length acc) + hex_value acc.
Proof.
  induction fuel as [|fuel IH]; intros n acc Hn Hacc.
  - simpl in *. split; [exact Hacc|]. assert (n = 0) as -> by lia. lia.
  - cbn [radix_digits].
    assert (Hd : 0 <= n mod 16 < 16) by (apply Z.mod_pos_bound; lia).
    destruct (digit_char_16 _ Hd) as [Hc Hv].
    set (acc' := String (digit_char (n mod 16)) acc).
    assert (Hacc' : all_hex acc' = true) by (simpl; now rewrite Hc, Hacc).
    assert (Hval : hex_value acc'
                   = n mod 16 * 16 ^ Z.of_nat (String.length acc) + hex_value acc)
      by now apply hex_value_String.
    pose proof (Z.div_mod n 16 ltac:(lia)) as Hdm.
    destruct (Z.eqb_spec (n / 16) 0) as [E|E].
    + split; [exact Hacc'|]. rewrite Hval. f_equal. f_equal. lia.
    + rewrite Nat2Z.inj_succ, Z.pow_succ_r in Hn by lia.
      assert (Hq : 0 <= n / 16 < 16 ^ Z.of_nat fuel).
      { split; [apply Z.div_pos; lia | apply Z.div_lt_upper_bound; lia]. }
      destruct (IH (n / 16) acc' Hq Hacc') as [Ha Hb]. split; [exact Ha|].
      rewrite Hb, Hval. subst acc'. cbn [String.length].
      rewrite Nat2Z.inj_succ, Z.pow_succ_r by lia. nia.
Qed.

(** The radix-16 numeral of a natural number is made of hex digits and
    denotes the number. *)
Lemma numeral_value (n : Z) :
  0 <= n ->
  all_hex (numeral 16 n) = true /\ hex_value (numeral 16 n) = n /\
  numeral 16 n <> "".
Proof.
  intros Hn. unfold numeral.
  assert (Hf : 0 <= n < 16 ^ Z.of_nat (S (Z.to_nat (Z.log2 n)))).
  { split; [exact Hn|]. rewrite Nat2Z.inj_succ, Z2Nat.id by apply Z.log2_nonneg.
    destruct (Z.eq_dec n 0) as [->|Hz]; [reflexivity|].
    assert (n < 2 ^ Z.succ (Z.log2 n)) by (apply Z.log2_spec; lia).
    assert (2 ^ Z.succ (Z.log2 n) <= 16 ^ Z.succ (Z.log2 n)).
    { apply Z.pow_le_mono_l. lia. }
    lia. }
  destruct (radix_digits_value _ n "" Hf eq_refl) as [Ha Hb].
  split; [exact Ha|]. split.
  - rewrite Hb. change (hex_value "") with 0. simpl. lia.
  - pose proof (numeral_starts_hex n) as Hs. unfold numeral in Hs.
    intros E. now rewrite E in Hs.
Qed.

Lemma filler_zeros (k : nat) :
  forall cur s, cur = "" \/ cur = "0" -> all_hex s = true ->
    all_hex (filler k cur "0" ++ s) = true /\
    hex_value (filler k cur "0" ++ s) = hex_value s.
Proof.
  induction k as [|k IH]; intros cur s Hcur Hs; [now simpl|].
  assert (E : filler (S k) cur "0" = String "0" (filler k "" "0"))
    by (destruct Hcur as [->| ->]; reflexivity).
  rewrite E. destruct (IH "" s (or_introl eq_refl) Hs) as [Ha Hb].
  cbn [append]. split.
  - simpl. exact Ha.
  - rewrite (hex_value_String "0" _ 0 eq_refl ltac:(lia) Ha). now rewrite Hb.
Qed.

Lemma padStart_value (s : string) :
  s <> "" -> all_hex s = true ->
  padStart s 6 "0" <> "" /\ all_hex (padStart s 6 "0") = true /\
  hex_value (padStart s 6 "0") = hex_value s.
Proof.
  intros Hne Hs. split.
  - destruct (padStart_zero s) as [[_ ->]|[_ [r ->]]]; [exact Hne|discriminate].
  - unfold padStart. destruct (6 <=? String.length s)%nat; [auto|].
    apply filler_zeros; auto.
Qed.

Lemma all_hex_pattern (t : string) :
  all_hex t = true -> hex_colour_pattern_test t = false.
Proof.
  destruct t as [|c t]; [reflexivity|]. simpl. intros H.
  apply andb_prop in H as [Hc _].
  destruct (Ascii.eqb_spec c "#") as [->|_]; [discriminate|reflexivity].
Qed.

Lemma to_double_exact (v : Z) : 0 <= v < 2 ^ 53 -> to_double v = Num v.
Proof.
  intros Hv. unfold to_double. rewrite Z.abs_eq by lia.
  destruct (Z.leb_spec (Z.log2 v + 1) 53) as [_|H]; [reflexivity|].
  exfalso. destruct (Z.eq_dec v 0) as [->|Hz]; [simpl in H; lia|].
  assert (Z.log2 v < 53) by (apply Z.log2_lt_pow2; lia). lia.
Qed.

Lemma ToInt32_small (v : Z) : 0 <= v < 2 ^ 31 -> ToInt32 (Num v) = v.
Proof.
  intros Hv. unfold ToInt32. rewrite Z.mod_small by lia.
  destruct (Z.leb_spec (2 ^ 31) v); [lia|reflexivity].
Qed.

Lemma shiftr_small (v k : Z) : 0 <= v < 2 ^ 31 -> 0 <= k -> 0 <= Z.shiftr v k < 2 ^ 31.
Proof.
  intros Hv Hk. rewrite Z.shiftr_div_pow2 by exact Hk.
  assert (0 < 2 ^ k) by (apply Z.pow_pos_nonneg; lia).
  split; [apply Z.div_pos; lia|].
  apply Z.div_lt_upper_bound; [lia|]. nia.
Qed.

(** On a string of hex digits denoting [v] below 2^31, [HexToRGB] gives
    [v >> 16], bits 8..15 and bits 0..7 of [v]. *)
Lemma HexToRGB_all_hex (t : string) :
  t <> "" -> all_hex t = true -> hex_value t < 2 ^ 31 ->
  HexToRGB t =
  Ok (RGB (Num (Z.shiftr (hex_value t) 16))
          (Num (Z.land (Z.shiftr (hex_value t) 8) 255))
          (Num (Z.land (hex_value t) 255))).
Proof.
  intros Hne Ht Hlt. unfold HexToRGB.
  rewrite (all_hex_pattern t Ht), (parseInt_all_hex t Hne Ht).
  pose proof (hex_value_bound t Ht) as [H0 _].
  set (v := hex_value t) in *.
  rewrite to_double_exact by (split; [lia | eapply Z.lt_trans; [exact Hlt | reflexivity]]).
  unfold sar, band. rewrite (ToInt32_small v) by lia.
  change (ToInt32 (Num 16) mod 32) with 16.
  change (ToInt32 (Num 8) mod 32) with 8.
  change (ToInt32 (Num 255)) with 255.
  rewrite (ToInt32_small (Z.shiftr v 8)) by (apply shiftr_small; lia).
  reflexivity.
Qed.

Lemma HexToRGB_channels (t : string) :
  t <> "" -> all_hex t = true -> hex_value t < 2 ^ 24 ->
  HexToRGB t = Ok (channels (hex_value t)).
Proof.
  intros Hne Ht Hlt.
  rewrite (HexToRGB_all_hex t Hne Ht)
    by (eapply Z.lt_trans; [exact Hlt | reflexivity]).
  unfold channels. do 3 f_equal.
  pose proof (hex_value_bound t Ht) as [H0 _].
  change 255 with (Z.ones 8). rewrite Z.land_ones by lia.
  rewrite Z.shiftr_div_pow2 by lia. symmetry. apply Z.mod_small.
  split; [apply Z.div_pos; lia | apply Z.div_lt_upper_bound; lia].
Qed.

Lemma Hex_num_value (n : Z) :
  0 <= n ->
  Hex (HexNum (Num n)) <> "" /\ all_hex (Hex (HexNum (Num n))) = true /\
  hex_value (Hex (HexNum (Num n))) = n.
Proof.
  intros Hn. destruct (numeral_value n Hn) as (Ha & Hv & Hne).
  unfold Hex, Number_toString. destruct (Z.ltb_spec n 0); [lia|].
  destruct (padStart_value _ Hne Ha) as (? & ? & E). rewrite E. auto.
Qed.

Lemma Hex_str_six (h : string) :
  String.length h = 6%nat -> all_hex h = true ->
  Hex (HexStr h) = h /\ Hex (HexStr ("#" ++ h)) = h.
Proof.
  intros L Hh.
  change (Hex (HexStr ("#" ++ h))) with (padStart h 6 "0").
  assert (E : replace_leading_hash h = h).
  { destruct h as [|c h]; [reflexivity|]. simpl in Hh |- *.
    apply andb_prop in Hh as [Hc _].
    destruct (Ascii.eqb_spec c "#") as [->|_]; [discriminate|reflexivity]. }
  unfold Hex. rewrite E. unfold padStart. rewrite L. auto.
Qed.

Lemma Hex_str_three (h : string) :
  String.length h = 3%nat -> all_hex h = true ->
  Hex (HexStr h) = "000" ++ h /\ Hex (HexStr ("#" ++ h)) = "000" ++ h.
Proof.
  intros L Hh.
  change (Hex (HexStr ("#" ++ h))) with (padStart h 6 "0").
  assert (E : replace_leading_hash h = h).
  { destruct h as [|c h]; [reflexivity|]. simpl in Hh |- *.
    apply andb_prop in Hh as [Hc _].
    destruct (Ascii.eqb_spec c "#") as [->|_]; [discriminate|reflexivity]. }
  unfold Hex. rewrite E. unfold padStart. rewrite L. auto.
Qed.

Lemma text_hex_channels (x : HexArg) (this : CLW) :
  Hex x <> "" -> all_hex (Hex x) = true -> hex_value (Hex x) < 2 ^ 24 ->
  text_hex x this = Ok (set_color ("38;2;" ++ channels (hex_value (Hex x))) this).
Proof.
  intros Hne Ha Hv. unfold text_hex. now rewrite HexToRGB_channels.
Qed.

(** C4: [text_hex(0xFF0000)] renders the channels [255;0;0] and
    [text_hex("00ff00")] renders [0;255;0]; in general a number below 2^24
    and a string of six hex digits, with or without the number sign, are
    decoded to red = bits 16..23, green = bits 8..15, blue = bits 0..7. *)
Theorem C4_hex_decoding :
  (forall s : string,
     render [TextHex (HexNum (Num 0xFF0000))] (new_CLW s)
       = Ok (wrapped "38;2;255;0;0" s) /\
     render [TextHex (HexStr "00ff00")] (new_CLW s)
       = Ok (wrapped "38;2;0;255;0" s)) /\
  (forall (n : Z) (this : CLW),
     0 <= n < 2 ^ 24 ->
     text_hex (HexNum (Num n)) this
       = Ok (set_color ("38;2;" ++ channels n) this)) /\
  (forall (h : string) (this : CLW),
     String.length h = 6%nat -> all_hex h = true ->
     text_hex (HexStr h) this
       = Ok (set_color ("38;2;" ++ channels (hex_value h)) this) /\
     text_hex (HexStr ("#" ++ h)) this
       = Ok (set_color ("38;2;" ++ channels (hex_value h)) this)).
Proof.
  split; [|split].
  - intros s. split; reflexivity.
  - intros n this Hn. destruct (Hex_num_value n) as (Hne & Ha & Hv); [lia|].
    rewrite text_hex_channels; rewrite ?Hv; auto; lia.
  - intros h this L Hh. destruct (Hex_str_six h L Hh) as [E1 E2].
    pose proof (hex_value_bound h Hh) as Hb. rewrite L in Hb.
    assert (Hne : h <> "") by (intros ->; discriminate).
    split; rewrite text_hex_channels; rewrite ?E1, ?E2; auto;
      change (2 ^ 24) with (16 ^ Z.of_nat 6); lia.
Qed.

Lemma C4_hex_decoding_witness :
  0 <= 0xFF0000 < 2 ^ 24 /\
  text_hex (HexNum (Num 0xFF0000)) (new_CLW "X")
    = Ok (mkCLW "X" "38;2;255;0;0" "" []) /\
  (String.length "00ff00" = 6%nat /\ all_hex "00ff00" = true) /\
  text_hex (HexStr "#00ff00") (new_CLW "X")
    = Ok (mkCLW "X" "38;2;0;255;0" "" []).
Proof.
  split; [lia|]. split; [|split; [split; reflexivity|]].
  - apply (proj1 (proj2 C4_hex_decoding) 0xFF0000 (new_CLW "X")). lia.
  - apply (proj2 (proj2 C4_hex_decoding) "00ff00" (new_CLW "X"));
      reflexivity.
Defined.

(** C10: a string of three hex digits, with or without the number sign,
    is padded on the left with three zeros, so it denotes a number below
    16^3 whose red channel is 0; [text_hex("fff")] sets the channels
    [0;15;255], not [255;255;255]. *)
Theorem C10_three_digits_are_padded :
  (forall s : string,
     String.length s = 3%nat -> all_hex s = true ->
     Hex (HexStr s) = "000" ++ s /\
     Hex (HexStr ("#" ++ s)) = "000" ++ s /\
     0 <= hex_value s < 16 ^ 3 /\
     forall this : CLW,
       text_hex (HexStr s) this
         = Ok (set_color ("38;2;" ++ channels (hex_value s)) this) /\
       text_hex (HexStr ("#" ++ s)) this
         = Ok (set_color ("38;2;" ++ channels (hex_value s)) this)) /\
  Hex (HexStr "fff") = "000fff" /\
  (forall this : CLW,
     text_hex (HexStr "fff") this = Ok (set_color "38;2;0;15;255" this) /\
     text_hex (HexStr "fff") this <> Ok (set_color "38;2;255;255;255" this)).
Proof.
  split; [|split; [reflexivity|]].
  - intros s L Hs. destruct (Hex_str_three s L Hs) as [E1 E2].
    pose proof (hex_value_bound s Hs) as Hb. rewrite L in Hb.
    change (16 ^ Z.of_nat 3) with (16 ^ 3) in Hb.
    assert (Hne : s <> "") by (intros ->; discriminate).
    destruct (padStart_value s Hne Hs) as (Pne & Pa & Pv).
    assert (EH : Hex (HexStr s) = padStart s 6 "0").
    { rewrite E1. unfold padStart. rewrite L. reflexivity. }
    repeat split; auto; try lia;
      rewrite text_hex_channels; rewrite ?E2, <- ?E1, ?EH, ?Pv; auto; lia.
  - intros this. split; [reflexivity|]. unfold text_hex. simpl.
    unfold set_color. intros H. discriminate H.
Qed.

Lemma C10_three_digits_are_padded_witness :
  (String.length "0af" = 3%nat /\ all_hex "0af" = true) /\
  Hex (HexStr "#0af") = "0000af" /\
  text_hex (HexStr "#0af") (new_CLW "X") = Ok (mkCLW "X" "38;2;0;0;175" "" []).
Proof.
  split; [split; reflexivity|].
  destruct (proj1 C10_three_digits_are_padded "0af" eq_refl eq_refl)
    as (_ & E & _ & H).
  split; [exact E|]. exact (proj2 (H (new_CLW "X"))).
Defined.

Lemma well_formed_hex_digits (x : HexArg) :
  well_formed_hex x ->
  exists t : string,
    Hex x = padStart t 6 "0" /\ t <> "" /\ all_hex t = true /\
    hex_value t < 2 ^ 24.
Proof.
  destruct x as [[n| |sg]|s]; simpl; try tauto.
  - intros Hn. destruct (numeral_value n) as (Ha & Hv & Hne); [lia|].
    exists (numeral 16 n). unfold Number_toString.
    destruct (Z.ltb_spec n 0); [lia|]. rewrite Hv. repeat split; auto; lia.
  - intros (h & Hs & Hh & L). exists h.
    assert (Hne : h <> "") by (intros ->; destruct L; discriminate).
    assert (Hv : hex_value h < 2 ^ 24).
    { pose proof (hex_value_bound h Hh) as Hb.
      change (2 ^ 24) with (16 ^ 3 * 16 ^ 3).
      destruct L as [L|L]; rewrite L in Hb;
        [change (16 ^ Z.of_nat 3) with (16 ^ 3) in Hb
        |change (16 ^ Z.of_nat 6) with (16 ^ 3 * 16 ^ 3) in Hb]; lia. }
    repeat split; auto.
    destruct Hs as [->| ->]; [|reflexivity]. f_equal.
    destruct h as [|c h]; [reflexivity|]. simpl in Hh |- *.
    apply andb_prop in Hh as [Hc _].
    destruct (Ascii.eqb_spec c "#") as [->|_]; [discriminate|reflexivity].
Qed.

(** C9, for the input the code is written for: on a well-formed hex
    colour, that is a number from 0 to 0xFFFFFF or a string of three or six
    hex digits with or without one leading number sign, [text_hex] and
    [bg_hex] return and throw nothing.  [Hex] has removed the number sign,
    so what reaches [HexToRGB] is hex digits only and is not matched by the
    pattern that guards the throw; the channels stored are integers in
    0..255.  Nothing is stated here about input that is no hex colour. *)
Theorem C9_hex_setters_return_on_hex_colours :
  forall (x : HexArg) (this : CLW),
    well_formed_hex x ->
    all_hex (Hex x) = true /\
    hex_colour_pattern_test (Hex x) = false /\
    exists r g b : Z,
      (0 <= r < 256 /\ 0 <= g < 256 /\ 0 <= b < 256) /\
      text_hex x this
        = Ok (set_color ("38;2;" ++ RGB (Num r) (Num g) (Num b)) this) /\
      bg_hex x this
        = Ok (set_bgColor ("48;2;" ++ RGB (Num r) (Num g) (Num b)) this).
Proof.
  intros x this Hx.
  destruct (well_formed_hex_digits x Hx) as (t & E & Hne & Ht & Hv).
  destruct (padStart_value t Hne Ht) as (Pne & Pa & Pv).
  assert (Hbyte : forall a, 0 <= Z.land a 255 < 256).
  { intros a. change 255 with (Z.ones 8). rewrite Z.land_ones by lia.
    apply Z.mod_pos_bound. lia. }
  rewrite E. split; [exact Pa|]. split; [now apply all_hex_pattern|].
  exists (Z.land (Z.shiftr (hex_value t) 16) 255),
         (Z.land (Z.shiftr (hex_value t) 8) 255),
         (Z.land (hex_value t) 255).
  split; [repeat split; apply Hbyte|].
  unfold text_hex, bg_hex. rewrite E.
  rewrite (HexToRGB_channels _ Pne Pa) by (rewrite Pv; exact Hv).
  rewrite Pv. split; reflexivity.
Qed.

Lemma C9_hex_setters_return_on_hex_colours_witness :
  (well_formed_hex (HexStr "#0af") /\ well_formed_hex (HexNum (Num 0xF2F2F2))) /\
  (all_hex (Hex (HexStr "#0af")) = true /\
   hex_colour_pattern_test (Hex (HexStr "#0af")) = false /\
   exists r g b : Z,
     (0 <= r < 256 /\ 0 <= g < 256 /\ 0 <= b < 256) /\
     text_hex (HexStr "#0af") (new_CLW "X")
       = Ok (set_color ("38;2;" ++ RGB (Num r) (Num g) (Num b)) (new_CLW "X")) /\
     bg_hex (HexStr "#0af") (new_CLW "X")
       = Ok (set_bgColor ("48;2;" ++ RGB (Num r) (Num g) (Num b)) (new_CLW "X"))) /\
  text_hex (HexNum (Num 0xF2F2F2)) (new_CLW "X")
    = Ok (mkCLW "X" "38;2;242;242;242" "" []).
Proof.
  assert (W : well_formed_hex (HexStr "#0af")).
  { exists "0af". split; [now right|]. split; [reflexivity|now left]. }
  split; [split; [exact W|simpl; lia]|]. split; [|reflexivity].
  exact (C9_hex_setters_return_on_hex_colours (HexStr "#0af") (new_CLW "X") W).
Defined.

(** C9 as stated fails: a public hex setter throws on ["##ffffff"], and
    on ["zzzzzz"] the channels stored are 0, not [NaN]. *)
Lemma C9_counterexample :
  text_hex (HexStr "##ffffff") (new_CLW "X") = Throw InvalidHexColor /\
  bg_hex (HexStr "##ffffff") (new_CLW "X") = Throw InvalidHexColor /\
  Hex (HexStr "##ffffff") = "#ffffff" /\
  text_hex (HexStr "zzzzzz") (new_CLW "X")
    = Ok (mkCLW "X" "38;2;0;0;0" "" []).
Proof. repeat split. Qed.

(** C1: the code does not reject input that is no hex numeral.  On
    ["zzzzzz"] both hex setters return, having stored the channels
    [0;0;0], and [render] gives an escape string where the claim has
    "Invalid hex color" thrown. *)
Theorem C1_invalid_hex_is_not_rejected :
  all_hex "zzzzzz" = false /\
  hex_colour_pattern_test (Hex (HexStr "zzzzzz")) = false /\
  text_hex (HexStr "zzzzzz") (new_CLW "X")
    = Ok (mkCLW "X" "38;2;0;0;0" "" []) /\
  bg_hex (HexStr "zzzzzz") (new_CLW "X")
    = Ok (mkCLW "X" "" "48;2;0;0;0" []) /\
  render [TextHex (HexStr "zzzzzz")] (new_CLW "X")
    = Ok (wrapped "38;2;0;0;0" "X").
Proof. repeat split. Qed.

(** ** Further properties of the module *)

(** *** [Hex], [RGB] and [HexToRGB] on numbers *)

Lemma string_length_app (s t : string) :
  String.length (s ++ t) = (String.length s + String.length t)%nat.
Proof. induction s as [|c s IH]; simpl; [reflexivity|now rewrite IH]. Qed.

Lemma filler_zero_length (k : nat) :
  forall cur, cur = "" \/ cur = "0" ->
    String.length (filler k cur "0") = k /\ all_zero (filler k cur "0") = true.
Proof.
  induction k as [|k IH]; intros cur Hcur; [now simpl|].
  assert (E : filler (S k) cur "0" = String "0" (filler k "" "0"))
    by (destruct Hcur as [->| ->]; reflexivity).
  rewrite E. destruct (IH "" (or_introl eq_refl)) as [L Z0].
  simpl. now rewrite L, Z0.
Qed.

Lemma padStart_shape (s : string) :
  exists p, padStart s 6 "0" = p ++ s /\ all_zero p = true /\
            String.length p = (6 - String.length s)%nat.
Proof.
  unfold padStart. destruct (Nat.leb_spec 6 (String.length s)) as [H|H].
  - exists "". repeat split. cbn [String.length]. lia.
  - exists (filler (6 - String.length s) "0" "0").
    destruct (filler_zero_length (6 - String.length s) "0" (or_intror eq_refl)).
    auto.
Qed.

(** X1: [Hex] never returns fewer than six characters, and never cuts:
    on a string it returns the string without one leading number sign,
    preceded by as many zeros as it is short of six characters. *)
Theorem Hex_pads_to_six :
  (forall x : HexArg, (6 <= String.length (Hex x))%nat) /\
  (forall s : string,
     exists p : string,
       Hex (HexStr s) = p ++ replace_leading_hash s /\ all_zero p = true /\
       String.length p = (6 - String.length (replace_leading_hash s))%nat /\
       String.length (Hex (HexStr s))
         = Nat.max 6 (String.length (replace_leading_hash s))).
Proof.
  split.
  - intros x. destruct x as [n|s]; unfold Hex;
      match goal with |- context [padStart ?t 6 "0"] =>
        destruct (padStart_shape t) as (p & -> & _ & L) end;
      rewrite string_length_app; lia.
  - intros s. unfold Hex.
    destruct (padStart_shape (replace_leading_hash s)) as (p & E & Z0 & L).
    exists p. rewrite E, string_length_app. repeat split; auto. lia.
Qed.

(** X2: for a natural number below 2^53, [Hex] returns hex digits only,
    and [parseInt] in radix 16 reads the number back from them. *)
Theorem Hex_of_number_reads_back :
  forall n : Z,
    0 <= n < 2 ^ 53 ->
    all_hex (Hex (HexNum (Num n))) = true /\
    parseInt (Hex (HexNum (Num n))) (Num 16) = Num n.
Proof.
  intros n Hn. destruct (Hex_num_value n) as (Hne & Ha & Hv); [lia|].
  split; [exact Ha|].
  rewrite (parseInt_all_hex _ Hne Ha), Hv. now apply to_double_exact.
Qed.

Lemma Hex_of_number_reads_back_witness :
  0 <= 0xF2F2F2 < 2 ^ 53 /\
  Hex (HexNum (Num 0xF2F2F2)) = "f2f2f2" /\
  parseInt (Hex (HexNum (Num 0xF2F2F2))) (Num 16) = Num 0xF2F2F2.
Proof.
  split; [lia|]. split; [reflexivity|].
  apply (Hex_of_number_reads_back 0xF2F2F2). lia.
Defined.

Lemma ToInt32_range (x : number) : - 2 ^ 31 <= ToInt32 x < 2 ^ 31.
Proof.
  destruct x as [z| |s]; simpl; try lia.
  pose proof (Z.mod_pos_bound z (2 ^ 32) ltac:(lia)) as H.
  change (Z.pow_pos 2 32) with (2 ^ 32). change (Z.pow_pos 2 31) with (2 ^ 31).
  destruct (Z.leb_spec (2 ^ 31) (z mod 2 ^ 32)); lia.
Qed.

Lemma land_255_range (a : Z) : 0 <= Z.land a 255 < 256.
Proof.
  change 255 with (Z.ones 8). rewrite Z.land_ones by lia.
  apply Z.mod_pos_bound. lia.
Qed.

(** X3: whenever [HexToRGB] returns, the green and blue channels it
    prints are in 0..255, and the red channel, which it does not mask, is
    in -32768..32767. *)
Theorem HexToRGB_channel_ranges :
  forall hex rgb : string,
    HexToRGB hex = Ok rgb ->
    exists r g b : Z,
      rgb = RGB (Num r) (Num g) (Num b) /\
      - 2 ^ 15 <= r < 2 ^ 15 /\ 0 <= g < 256 /\ 0 <= b < 256.
Proof.
  intros hex rgb. unfold HexToRGB.
  destruct (hex_colour_pattern_test hex); [discriminate|]. intros [= <-].
  set (num := parseInt hex (Num 16)).
  exists (Z.shiftr (ToInt32 num) 16),
         (Z.land (ToInt32 (sar num (Num 8))) 255), (Z.land (ToInt32 num) 255).
  split; [reflexivity|]. split; [|split; apply land_255_range].
  pose proof (ToInt32_range num) as H. rewrite Z.shiftr_div_pow2 by lia.
  change (2 ^ 31) with (2 ^ 15 * 2 ^ 16) in H.
  split.
  - apply Z.div_le_lower_bound; lia.
  - apply Z.div_lt_upper_bound; lia.
Qed.

Lemma HexToRGB_channel_ranges_witness :
  HexToRGB "ffffffffff" = Ok "-1;255;255" /\
  exists r g b : Z,
    "-1;255;255" = RGB (Num r) (Num g) (Num b) /\
    - 2 ^ 15 <= r < 2 ^ 15 /\ 0 <= g < 256 /\ 0 <= b < 256.
Proof.
  split; [reflexivity|].
  apply (HexToRGB_channel_ranges "ffffffffff"). reflexivity.
Defined.

Lemma bg_hex_channels (x : HexArg) (this : CLW) :
  Hex x <> "" -> all_hex (Hex x) = true -> hex_value (Hex x) < 2 ^ 24 ->
  bg_hex x this = Ok (set_bgColor ("48;2;" ++ channels (hex_value (Hex x))) this).
Proof.
  intros Hne Ha Hv. unfold bg_hex. now rewrite HexToRGB_channels.
Qed.

(** X4: on a number from 0 below 2^31, [text_hex] stores the number
    shifted right by 16 as red, with no mask: from 2^24 on, the red channel
    is 256 or more. *)
Theorem text_hex_red_is_not_masked :
  forall (n : Z) (this : CLW),
    0 <= n < 2 ^ 31 ->
    text_hex (HexNum (Num n)) this
      = Ok (set_color ("38;2;" ++ RGB (Num (Z.shiftr n 16))
                                      (Num (Z.land (Z.shiftr n 8) 255))
                                      (Num (Z.land n 255))) this) /\
    (2 ^ 24 <= n -> 256 <= Z.shiftr n 16).
Proof.
  intros n this Hn. destruct (Hex_num_value n) as (Hne & Ha & Hv); [lia|].
  split.
  - unfold text_hex. rewrite HexToRGB_all_hex; rewrite ?Hv; auto; lia.
  - intros Hbig. rewrite Z.shiftr_div_pow2 by lia.
    apply Z.div_le_lower_bound; [lia|]. exact Hbig.
Qed.

Lemma text_hex_red_is_not_masked_witness :
  (0 <= 0x1000000 < 2 ^ 31 /\ 2 ^ 24 <= 0x1000000) /\
  text_hex (HexNum (Num 0x1000000)) (new_CLW "X")
    = Ok (mkCLW "X" "38;2;256;0;0" "" []) /\
  256 <= Z.shiftr 0x1000000 16.
Proof.
  split; [lia|].
  destruct (text_hex_red_is_not_masked 0x1000000 (new_CLW "X")) as [H1 H2];
    [lia|].
  split; [exact H1 | apply H2; lia].
Defined.

Lemma channels_of_triple (r g b : Z) :
  0 <= r < 256 -> 0 <= g < 256 -> 0 <= b < 256 ->
  channels (r * 65536 + g * 256 + b) = RGB (Num r) (Num g) (Num b).
Proof.
  intros Hr Hg Hb. unfold channels.
  change 255 with (Z.ones 8). rewrite !Z.land_ones, !Z.shiftr_div_pow2 by lia.
  change (2 ^ 16) with 65536. change (2 ^ 8) with 256.
  assert (E1 : (r * 65536 + g * 256 + b) / 65536 = r)
    by (symmetry; apply (Z.div_unique _ _ _ (g * 256 + b)); [left|]; lia).
  assert (E2 : (r * 65536 + g * 256 + b) / 256 = r * 256 + g)
    by (symmetry; apply (Z.div_unique _ _ _ b); [left|]; lia).
  assert (E3 : (r * 65536 + g * 256 + b) mod 256 = b)
    by (symmetry; apply (Z.mod_unique _ _ (r * 256 + g)); [left|]; lia).
  assert (E4 : (r * 256 + g) mod 256 = g)
    by (symmetry; apply (Z.mod_unique _ _ r); [left|]; lia).
  rewrite E1, E2, E3, E4, (Z.mod_small r) by lia. reflexivity.
Qed.

(** X5: for channels in 0..255, the hex setters on the 24-bit number
    [r * 65536 + g * 256 + b] do what the RGB setters do on [r], [g],
    [b]. *)
Theorem hex_setters_agree_with_rgb_setters :
  forall (r g b : Z) (this : CLW),
    0 <= r < 256 -> 0 <= g < 256 -> 0 <= b < 256 ->
    text_hex (HexNum (Num (r * 65536 + g * 256 + b))) this
      = text_rgb (Num r) (Num g) (Num b) this /\
    bg_hex (HexNum (Num (r * 65536 + g * 256 + b))) this
      = bg_rgb (Num r) (Num g) (Num b) this.
Proof.
  intros r g b this Hr Hg Hb.
  set (n := r * 65536 + g * 256 + b).
  assert (Hn : 0 <= n < 2 ^ 24) by (subst n; change (2 ^ 24) with 16777216; lia).
  destruct (Hex_num_value n) as (Hne & Ha & Hv); [lia|].
  rewrite text_hex_channels, bg_hex_channels; rewrite ?Hv; auto; try lia.
  subst n. rewrite channels_of_triple by assumption. split; reflexivity.
Qed.

Lemma hex_setters_agree_with_rgb_setters_witness :
  (0 <= 242 < 256 /\ 0 <= 10 < 256 /\ 0 <= 7 < 256) /\
  text_hex (HexNum (Num 0xF20A07)) (new_CLW "X")
    = text_rgb (Num 242) (Num 10) (Num 7) (new_CLW "X") /\
  text_rgb (Num 242) (Num 10) (Num 7) (new_CLW "X")
    = Ok (mkCLW "X" "38;2;242;10;7" "" []).
Proof.
  split; [lia|]. split; [|reflexivity].
  apply (hex_setters_agree_with_rgb_setters 242 10 7 (new_CLW "X")); lia.
Defined.

Lemma radix_digits_length_le (fuel : nat) :
  forall (n : Z) (acc : string) (k : nat),
    (1 <= k)%nat -> 0 <= n < 16 ^ Z.of_nat k ->
    (String.length (radix_digits fuel 16 n acc) <= k + String.length acc)%nat.
Proof.
  induction fuel as [|fuel IH]; intros n acc k Hk Hn; simpl; [lia|].
  destruct (Z.eqb_spec (n / 16) 0) as [E|E]; [simpl; lia|].
  destruct k as [|[|k]]; [lia| |].
  - exfalso. apply E. apply Z.div_small. simpl in Hn. lia.
  - rewrite Nat2Z.inj_succ, Z.pow_succ_r in Hn by lia.
    assert (Hq : 0 <= n / 16 < 16 ^ Z.of_nat (S k)).
    { split; [apply Z.div_pos; lia | apply Z.div_lt_upper_bound; lia]. }
    specialize (IH (n / 16) (String (digit_char (n mod 16)) acc) (S k)
                   ltac:(lia) Hq).
    simpl in IH |- *. lia.
Qed.

Lemma radix_digits_length_ge (fuel : nat) :
  forall (n : Z) (acc : string),
    (String.length acc <= String.length (radix_digits fuel 16 n acc))%nat.
Proof.
  induction fuel as [|fuel IH]; intros n acc; simpl; [lia|].
  destruct (n / 16 =? 0); [simpl; lia|].
  specialize (IH (n / 16) (String (digit_char (n mod 16)) acc)).
  simpl in IH. lia.
Qed.

Lemma radix_digits_length_gt (fuel : nat) :
  forall (n : Z) (acc : string) (k : nat),
    16 ^ Z.of_nat k <= n < 16 ^ Z.of_nat fuel ->
    (k + 1 + String.length acc
     <= String.length (radix_digits fuel 16 n acc))%nat.
Proof.
  induction fuel as [|fuel IH]; intros n acc k Hn.
  - exfalso. assert (0 < 16 ^ Z.of_nat k) by (apply Z.pow_pos_nonneg; lia).
    simpl in Hn. lia.
  - cbn [radix_digits].
    destruct (Z.eqb_spec (n / 16) 0) as [E|E].
    + assert (n < 16).
      { destruct (Z.lt_ge_cases n 16) as [?|Hge]; [assumption|].
        assert (1 <= n / 16) by (apply Z.div_le_lower_bound; lia). lia. }
      destruct k as [|k]; [simpl; lia|]. exfalso.
      rewrite Nat2Z.inj_succ, Z.pow_succ_r in Hn by lia.
      assert (0 < 16 ^ Z.of_nat k) by (apply Z.pow_pos_nonneg; lia). lia.
    + destruct k as [|k].
      * pose proof (radix_digits_length_ge fuel (n / 16)
                      (String (digit_char (n mod 16)) acc)) as H.
        simpl in H |- *. lia.
      * rewrite !Nat2Z.inj_succ, !Z.pow_succ_r in Hn by lia.
        assert (Hq : 16 ^ Z.of_nat k <= n / 16 < 16 ^ Z.of_nat fuel).
        { split; [apply Z.div_le_lower_bound; lia
                 | apply Z.div_lt_upper_bound; lia]. }
        specialize (IH (n / 16) (String (digit_char (n mod 16)) acc) k Hq).
        simpl in IH |- *. lia.
Qed.

Lemma numeral_fuel (n : Z) :
  0 <= n -> n < 16 ^ Z.of_nat (S (Z.to_nat (Z.log2 n))).
Proof.
  intros Hn. rewrite Nat2Z.inj_succ, Z2Nat.id by apply Z.log2_nonneg.
  destruct (Z.eq_dec n 0) as [->|Hz]; [reflexivity|].
  assert (n < 2 ^ Z.succ (Z.log2 n)) by (apply Z.log2_spec; lia).
  assert (2 ^ Z.succ (Z.log2 n) <= 16 ^ Z.succ (Z.log2 n))
    by (apply Z.pow_le_mono_l; lia).
  lia.
Qed.

(** The number of digits of a radix-16 numeral *)
Lemma numeral_length (n : Z) (k : nat) :
  16 ^ Z.of_nat k <= n < 16 ^ Z.of_nat (S k) ->
  String.length (numeral 16 n) = S k.
Proof.
  intros Hn.
  assert (0 < 16 ^ Z.of_nat k) by (apply Z.pow_pos_nonneg; lia).
  pose proof (numeral_fuel n ltac:(lia)) as Hf. unfold numeral.
  pose proof (radix_digits_length_le (S (Z.to_nat (Z.log2 n))) n "" (S k)
                ltac:(lia) ltac:(lia)) as Hle.
  pose proof (radix_digits_length_gt (S (Z.to_nat (Z.log2 n))) n "" k
                ltac:(lia)) as Hge.
  change (String.length "") with 0%nat in Hle, Hge. lia.
Qed.

Lemma digits_prefix_zeros (p t : string) :
  all_zero p = true ->
  math_int 16 (digits_prefix 16 (p ++ String "-" t)) = 0.
Proof.
  induction p as [|c p IH]; intros H; [reflexivity|].
  simpl in H. apply andb_prop in H as [Hc Hp]. apply Ascii.eqb_eq in Hc as ->.
  change (digits_prefix 16 (String "0" p ++ String "-" t))
    with (0 :: digits_prefix 16 (p ++ String "-" t)).
  rewrite math_int_cons, (IH Hp). lia.
Qed.

(** [parseInt] stops at a minus sign that follows leading zeros. *)
Lemma parseInt_zeros_minus (p t : string) :
  all_zero p = true -> p <> "" ->
  parseInt (p ++ String "-" t) (Num 16) = Num 0.
Proof.
  intros Hp Hne. destruct p as [|c p]; [congruence|].
  pose proof (digits_prefix_zeros _ t Hp) as Hv.
  simpl in Hp. apply andb_prop in Hp as [Hc Hp]. apply Ascii.eqb_eq in Hc as ->.
  rewrite parseInt_16.
  change (trim_start (String "0" p ++ String "-" t))
    with (String "0" (p ++ String "-" t)).
  change (strip_sign (String "0" (p ++ String "-" t)))
    with (1, String "0" (p ++ String "-" t)).
  cbv iota beta.
  assert (E0 : strip_0x (String "0" (p ++ String "-" t)) = None).
  { destruct p as [|c p]; [reflexivity|].
    simpl in Hp. apply andb_prop in Hp as [Hc _].
    apply Ascii.eqb_eq in Hc as ->. reflexivity. }
  rewrite E0. cbv zeta.
  change (digits_prefix 16 (String "0" (p ++ String "-" t)))
    with (0 :: digits_prefix 16 (p ++ String "-" t)).
  cbv iota.
  change (math_int 16 (0 :: digits_prefix 16 (p ++ String "-" t)) = 0) in Hv.
  now rewrite Hv.
Qed.

Lemma to_double_exact_signed (v : Z) :
  - 2 ^ 53 < v < 2 ^ 53 -> to_double v = Num v.
Proof.
  intros Hv. unfold to_double.
  destruct (Z.leb_spec (Z.log2 (Z.abs v) + 1) 53) as [_|H]; [reflexivity|].
  exfalso. destruct (Z.eq_dec v 0) as [->|Hz]; [simpl in H; lia|].
  assert (Z.log2 (Z.abs v) < 53) by (apply Z.log2_lt_pow2; lia). lia.
Qed.

Lemma ToInt32_int32 (v : Z) : - 2 ^ 31 <= v < 2 ^ 31 -> ToInt32 (Num v) = v.
Proof.
  intros Hv. destruct (Z.lt_ge_cases v 0) as [Hneg|Hpos].
  - unfold ToInt32.
    assert (E : v mod 2 ^ 32 = v + 2 ^ 32)
      by (symmetry; apply (Z.mod_unique _ _ (-1)); [left|]; lia).
    rewrite E. destruct (Z.leb_spec (2 ^ 31) (v + 2 ^ 32)); lia.
  - apply ToInt32_small. lia.
Qed.

Lemma strip_0x_all_hex (s : string) : all_hex s = true -> strip_0x s = None.
Proof.
  destruct s as [|c [|x s]]; try reflexivity. simpl. intros H.
  apply andb_prop in H as [_ H]. apply andb_prop in H as [Hx _].
  destruct (hex_class_plain x Hx) as (_ & _ & _ & -> & ->).
  now rewrite andb_false_r.
Qed.

(** [parseInt] of a minus sign and hex digits *)
Lemma parseInt_minus_hex (s : string) :
  s <> "" -> all_hex s = true ->
  parseInt (String "-" s) (Num 16) = to_double (- hex_value s).
Proof.
  intros Hne Hs. rewrite parseInt_16.
  change (strip_sign (trim_start (String "-" s))) with (-1, s).
  cbv iota beta. rewrite (strip_0x_all_hex s Hs). unfold hex_value.
  destruct (digits_prefix 16 s) as [|d ds] eqn:E.
  - exfalso. destruct s as [|c s]; [congruence|].
    simpl in Hs, E. apply andb_prop in Hs as [Hc _].
    destruct (hex_class_digit c Hc) as (d & Ed & Hd). rewrite Ed in E.
    destruct (Z.ltb_spec d 16); [discriminate|lia].
  - cbv zeta. f_equal; lia.
Qed.

(** X6: a negative number is not rejected by [text_hex].  Above -2^16
    its numeral is padded with zeros before the minus sign, [parseInt]
    stops there, and the colour is [0;0;0]; from -2^16 down to -2^31 the
    minus sign is read and the red channel is negative. *)
Theorem text_hex_of_negative_number :
  forall (z : Z) (this : CLW),
    (- 2 ^ 16 < z < 0 ->
     text_hex (HexNum (Num z)) this = Ok (set_color "38;2;0;0;0" this)) /\
    (- 2 ^ 31 <= z <= - 2 ^ 16 ->
     text_hex (HexNum (Num z)) this
       = Ok (set_color ("38;2;" ++ RGB (Num (Z.shiftr z 16))
                                       (Num (Z.land (Z.shiftr z 8) 255))
                                       (Num (Z.land z 255))) this) /\
     Z.shiftr z 16 < 0).
Proof.
  intros z this. split; intros Hz.
  - destruct (numeral_value (- z)) as (Ha & Hv & Hne); [lia|].
    assert (L : (String.length (numeral 16 (- z)) <= 4)%nat).
    { pose proof (radix_digits_length_le (S (Z.to_nat (Z.log2 (- z)))) (- z)
                    "" 4 ltac:(lia)) as H.
      change (String.length "") with 0%nat in H. unfold numeral.
      etransitivity; [apply H|lia]. change (16 ^ Z.of_nat 4) with (2 ^ 16). lia. }
    assert (E : Hex (HexNum (Num z)) = padStart (String "-" (numeral 16 (- z))) 6 "0").
    { unfold Hex, Number_toString. destruct (Z.ltb_spec z 0); [reflexivity|lia]. }
    destruct (padStart_shape (String "-" (numeral 16 (- z)))) as (p & Ep & Z0 & Lp).
    assert (Hp : p <> "").
    { intros ->. cbn [String.length] in Lp. lia. }
    unfold text_hex, HexToRGB. rewrite E, Ep.
    rewrite (parseInt_zeros_minus p _ Z0 Hp).
    destruct p as [|c p]; [congruence|].
    simpl in Z0. apply andb_prop in Z0 as [Hc _]. apply Ascii.eqb_eq in Hc as ->.
    reflexivity.
  - destruct (numeral_value (- z)) as (Ha & Hv & Hne); [lia|].
    assert (L : (5 <= String.length (numeral 16 (- z)))%nat).
    { pose proof (numeral_fuel (- z) ltac:(lia)) as Hf.
      pose proof (radix_digits_length_gt (S (Z.to_nat (Z.log2 (- z)))) (- z)
                    "" 4) as H.
      change (String.length "") with 0%nat in H. unfold numeral.
      etransitivity; [|apply H]; [lia|].
      change (16 ^ Z.of_nat 4) with (2 ^ 16). lia. }
    assert (E : Hex (HexNum (Num z)) = String "-" (numeral 16 (- z))).
    { unfold Hex, Number_toString. destruct (Z.ltb_spec z 0); [|lia].
      unfold padStart. cbn [append String.length].
      destruct (Nat.leb_spec 6 (S (String.length (numeral 16 (- z)))));
        [reflexivity|lia]. }
    assert (Hs : - 2 ^ 15 <= Z.shiftr z 16 < 0).
    { rewrite Z.shiftr_div_pow2 by lia.
      change (2 ^ 31) with (2 ^ 15 * 2 ^ 16) in Hz.
      split; [apply Z.div_le_lower_bound; lia
             | apply Z.div_lt_upper_bound; lia]. }
    assert (Hs8 : - 2 ^ 31 <= Z.shiftr z 8 < 2 ^ 31).
    { rewrite Z.shiftr_div_pow2 by lia.
      split; [apply Z.div_le_lower_bound; lia
             | apply Z.div_lt_upper_bound; lia]. }
    split; [|lia].
    unfold text_hex, HexToRGB. rewrite E.
    change (hex_colour_pattern_test (String "-" (numeral 16 (- z)))) with false.
    cbv iota. rewrite (parseInt_minus_hex _ Hne Ha), Hv, Z.opp_involutive.
    rewrite to_double_exact_signed
      by (change (2 ^ 53) with (2 ^ 31 * 2 ^ 22); lia).
    unfold sar, band. rewrite (ToInt32_int32 z) by lia.
    change (ToInt32 (Num 16) mod 32) with 16.
    change (ToInt32 (Num 8) mod 32) with 8.
    change (ToInt32 (Num 255)) with 255.
    rewrite (ToInt32_int32 (Z.shiftr z 8)) by lia.
    reflexivity.
Qed.

Lemma text_hex_of_negative_number_witness :
  (- 2 ^ 16 < -255 < 0) /\
  text_hex (HexNum (Num (-255))) (new_CLW "X")
    = Ok (mkCLW "X" "38;2;0;0;0" "" []) /\
  (- 2 ^ 31 <= -0x100000 <= - 2 ^ 16) /\
  text_hex (HexNum (Num (-0x100000))) (new_CLW "X")
    = Ok (mkCLW "X" "38;2;-16;0;0" "" []).
Proof.
  destruct (text_hex_of_negative_number (-255) (new_CLW "X")) as [H1 _].
  destruct (text_hex_of_negative_number (-0x100000) (new_CLW "X")) as [_ H2].
  split; [lia|]. split; [apply H1; lia|]. split; [lia|].
  apply H2. lia.
Defined.

Lemma codes_nil (this : CLW) :
  codes this = [] <-> color this = "" /\ style this = [] /\ bgColor this = "".
Proof.
  unfold codes.
  destruct (color this), (style this), (bgColor this); simpl;
    split; intros H; try discriminate H; auto;
    destruct H as (H1 & H2 & H3); discriminate.
Qed.

(** X7: [toString] returns the bare text exactly when no field is set;
    otherwise it returns the text wrapped, which is 7 characters and the
    parameters longer than the text. *)
Theorem toString_is_text_iff_unset :
  forall this : CLW,
    (toString this = str this <->
     color this = "" /\ style this = [] /\ bgColor this = "") /\
    (toString this = str this \/
     toString this = wrapped (join ";" (codes this)) (str this) /\
     String.length (toString this)
       = (String.length (str this)
          + String.length (join ";" (codes this)) + 7)%nat).
Proof.
  intros this.
  assert (Hlen : forall p s, String.length (wrapped p s)
                             = (String.length s + String.length p + 7)%nat).
  { intros p s. unfold wrapped. rewrite !string_length_app.
    change (String.length ESC) with 1%nat.
    change (String.length "[") with 1%nat.
    change (String.length "m") with 1%nat.
    change (String.length "[0m") with 3%nat. lia. }
  assert (Hw : codes this <> [] ->
               toString this = wrapped (join ";" (codes this)) (str this)).
  { unfold toString. destruct (codes this); [congruence|reflexivity]. }
  split; [split|].
  - intros H. apply codes_nil. destruct (codes this) as [|c cs] eqn:E;
      [reflexivity|]. exfalso.
    rewrite Hw in H by congruence. apply (f_equal String.length) in H.
    rewrite Hlen in H. lia.
  - intros (H1 & H2 & H3). now apply toString_unset.
  - destruct (codes this) as [|c cs] eqn:E.
    + left. apply toString_unset; now apply codes_nil.
    + right. rewrite Hw by congruence. split; [reflexivity|apply Hlen].
Qed.

Lemma toString_is_text_iff_unset_witness :
  (color (mkCLW "X" "" "" []) = "" /\ style (mkCLW "X" "" "" []) = []
   /\ bgColor (mkCLW "X" "" "" []) = "") /\
  toString (mkCLW "X" "" "" []) = "X".
Proof.
  split; [repeat split|].
  apply (proj2 (proj1 (toString_is_text_iff_unset (mkCLW "X" "" "" [])))).
  repeat split.
Defined.

(** X8: a colour setter overwrites: after an earlier setter of the same
    colour field, it leaves the builder, or throws, exactly as it would
    have without the earlier call. *)
Theorem colour_setter_overwrites :
  forall (c1 c2 : Setter) (this mid : CLW),
    set c1 this = Ok mid ->
    slot c1 = slot c2 -> slot c2 <> Styles ->
    set c2 mid = set c2 this.
Proof.
  intros c1 c2 this mid H1 Hs Hn. rewrite !set_stored in *.
  destruct (stored c1) as [v1|]; simpl in H1; [|discriminate].
  injection H1 as <-. rewrite Hs.
  destruct (stored c2) as [v2|]; simpl; [|reflexivity].
  destruct (slot c2); [reflexivity|congruence|reflexivity].
Qed.

Lemma colour_setter_overwrites_witness :
  set (TextRgb (Num 1) (Num 2) (Num 3)) (new_CLW "X")
    = Ok (mkCLW "X" "38;2;1;2;3" "" []) /\
  (slot (TextRgb (Num 1) (Num 2) (Num 3)) = slot (Text N_red) /\
   slot (Text N_red) <> Styles) /\
  set (Text N_red) (mkCLW "X" "38;2;1;2;3" "" []) = set (Text N_red) (new_CLW "X").
Proof.
  split; [reflexivity|]. split; [split; [reflexivity|discriminate]|].
  apply (colour_setter_overwrites (TextRgb (Num 1) (Num 2) (Num 3)));
    [reflexivity|reflexivity|discriminate].
Defined.

(** X9: a chain of setters that returns leaves the text as it was, in
    each colour field the string of the last call on that field (the field
    as it was if there was none), and in the style list the old styles
    followed by the style of each [font_] call in call order. *)
Theorem chain_leaves_last_colours_and_all_styles :
  forall (cs : list Setter) (this this' : CLW),
    chain cs this = Ok this' ->
    str this' = str this /\
    color this' = last (values Foreground cs) (color this) /\
    bgColor this' = last (values Background cs) (bgColor this) /\
    style this' = (style this ++ values Styles cs)%list.
Proof.
  intros cs this this' H. split; [eapply chain_str; eauto|].
  now apply chain_fields.
Qed.

Lemma chain_leaves_last_colours_and_all_styles_witness :
  chain [Font BOLD; Text N_red; Bg256 (Num 17); Font BOLD; Text256 (Num 200)]
        (new_CLW "X")
    = Ok (mkCLW "X" "38;5;200" "48;5;17" ["1"; "1"]) /\
  values Foreground
    [Font BOLD; Text N_red; Bg256 (Num 17); Font BOLD; Text256 (Num 200)]
    = ["31"; "38;5;200"] /\
  color (mkCLW "X" "38;5;200" "48;5;17" ["1"; "1"])
    = last ["31"; "38;5;200"] "".
Proof.
  split; [reflexivity|]. split; [reflexivity|].
  apply (chain_leaves_last_colours_and_all_styles
           [Font BOLD; Text N_red; Bg256 (Num 17); Font BOLD; Text256 (Num 200)]
           (new_CLW "X")).
  reflexivity.
Defined.

Lemma chain_fonts (ss : list Style) :
  forall this,
    chain (map Font ss) this
      = Ok (set_style (style this ++ map Style_value ss)%list this).
Proof.
  induction ss as [|s ss IH]; intros this; simpl.
  - rewrite app_nil_r. now destruct this.
  - rewrite font_named_font. unfold font. simpl. rewrite IH.
    unfold set_style. simpl. now rewrite <- app_assoc.
Qed.

(** X10: style calls accumulate, duplicates included, in call order,
    and a builder with styles only renders them joined by semicolons. *)
Theorem styles_accumulate_in_call_order :
  (forall (ss : list Style) (this : CLW),
     chain (map Font ss) this
       = Ok (set_style (style this ++ map Style_value ss)%list this)) /\
  (forall (s : Style) (ss : list Style) (t : string),
     render (map Font (s :: ss)) (new_CLW t)
       = Ok (wrapped (join ";" (map Style_value (s :: ss))) t)).
Proof.
  split; [exact chain_fonts|].
  intros s ss t. unfold render. rewrite chain_fonts. reflexivity.
Qed.

Lemma throwing_rejected (c : Setter) : throwing c = true <-> rejected c.
Proof.
  unfold throwing.
  destruct c; simpl; try rewrite colorToAnsii_code;
    try (split; [discriminate|tauto]).
  - rewrite <- pattern_Hex. unfold HexToRGB.
    destruct (hex_colour_pattern_test (Hex hex)); simpl; split; congruence.
  - rewrite <- pattern_Hex. unfold HexToRGB.
    destruct (hex_colour_pattern_test (Hex hex)); simpl; split; congruence.
Qed.

Lemma existsb_throwing (cs : list Setter) :
  existsb throwing cs = true <-> Exists rejected cs.
Proof.
  rewrite existsb_exists, Exists_exists.
  split; intros (c & Hin & H); exists c; (split; [exact Hin|]);
    now apply throwing_rejected.
Qed.

(** X11: a chain of setters throws exactly when one of its hex setters
    has an argument made of two number signs and six hex digits, and what
    it throws is then "Invalid hex color". *)
Theorem chain_throws_iff_some_hex_is_rejected :
  forall (cs : list Setter) (this : CLW) (e : Error),
    chain cs this = Throw e <-> e = InvalidHexColor /\ Exists rejected cs.
Proof.
  intros cs this e. split.
  - intros H. apply chain_throw in H as [-> H]. split; [reflexivity|].
    now apply existsb_throwing.
  - intros [-> H]. apply existsb_throwing in H.
    destruct (chain cs this) as [b|e'] eqn:E.
    + apply chain_ok in E. congruence.
    + apply chain_throw in E as [-> _]. reflexivity.
Qed.

Lemma chain_throws_iff_some_hex_is_rejected_witness :
  (String.length "00ff00" = 6%nat /\ all_hex "00ff00" = true) /\
  chain [Font BOLD; BgHex (HexStr "##00ff00"); Text N_red] (new_CLW "X")
    = Throw InvalidHexColor.
Proof.
  split; [split; reflexivity|].
  apply (proj2 (chain_throws_iff_some_hex_is_rejected
                  [Font BOLD; BgHex (HexStr "##00ff00"); Text N_red]
                  (new_CLW "X") InvalidHexColor)).
  split; [reflexivity|].
  apply Exists_cons_tl, Exists_cons_hd. exists "00ff00". repeat split.
Defined.

(** X12: the codes are pairwise distinct: [colorToAnsii] gives
    different codes to different colours and to foreground and background,
    the style codes differ from each other, and no colour code is a style
    code. *)
Theorem codes_are_distinct :
  (forall (c c' : Color) (b b' : bool),
     colorToAnsii c b = colorToAnsii c' b' -> c = c' /\ b = b') /\
  (forall s s' : Style, Style_value s = Style_value s' -> s = s') /\
  (forall (c : Color) (b : bool) (s : Style),
     colorToAnsii c b <> Ok (Style_value s)).
Proof.
  split; [|split].
  - intros c c' b b' H.
    destruct c, c', b, b'; vm_compute in H; try discriminate H; auto.
  - intros s s' H. destruct s, s'; try discriminate H; reflexivity.
  - intros c b s H. destruct c, b, s; vm_compute in H; discriminate H.
Qed.

Lemma codes_are_distinct_witness :
  colorToAnsii BRIGHT_RED false = colorToAnsii BRIGHT_RED false /\
  (BRIGHT_RED = BRIGHT_RED /\ false = false) /\
  colorToAnsii WHITE true = Ok "47" /\ colorToAnsii BRIGHT_WHITE false = Ok "97".
Proof.
  split; [reflexivity|]. split; [|split; reflexivity].
  apply (proj1 codes_are_distinct BRIGHT_RED BRIGHT_RED false false).
  reflexivity.
Defined.

Lemma after_console (m : Method) (w : World) :
  console (after m w)
  = (console w ++ if is_log m then [toString (self w)] else [])%list.
Proof.
  unfold after. destruct m; simpl; rewrite ?app_nil_r; try reflexivity.
  destruct (set c (self w)); simpl; reflexivity.
Qed.

(** X13: only [log] writes to the console: after any sequence of calls
    the console holds what it held, followed by one line for each [log]
    call. *)
Theorem only_log_writes_to_the_console :
  forall (ms : list Method) (w : World),
    exists lines : list string,
      console (after_all ms w) = (console w ++ lines)%list /\
      List.length lines = List.length (filter is_log ms).
Proof.
  unfold after_all.
  induction ms as [|m ms IH]; intros w; simpl.
  - exists []. now rewrite app_nil_r.
  - destruct (IH (after m w)) as (lines & E & L).
    rewrite E, after_console, <- app_assoc.
    eexists. split; [reflexivity|].
    rewrite List.length_app. destruct (is_log m); simpl; lia.
Qed.

Lemma Hex_length_ge (x : HexArg) : (6 <= String.length (Hex x))%nat.
Proof.
  destruct x as [n|s]; unfold Hex;
    match goal with |- context [padStart ?t 6 "0"] =>
      destruct (padStart_shape t) as (p & -> & _ & L) end;
    rewrite string_length_app; lia.
Qed.

Lemma Hex_num_no_hash (n : number) (r : string) :
  Hex (HexNum n) <> String "#" r.
Proof.
  unfold Hex.
  destruct (padStart_zero (Number_toString n 16)) as [[_ ->]|[_ [t ->]]];
    [|discriminate].
  destruct n as [z| |[|]]; try discriminate. simpl.
  destruct (z <? 0); [discriminate|].
  pose proof (numeral_starts_hex z) as H.
  destruct (numeral 16 z) as [|c t]; [discriminate|]. simpl in H.
  intros [= -> _]. discriminate H.
Qed.

(** X14: [Hex] returns its own result unchanged when that result does
    not start with a number sign, as is the case of every number. *)
Theorem Hex_is_idempotent_without_hash :
  (forall x : HexArg,
     (forall r, Hex x <> String "#" r) -> Hex (HexStr (Hex x)) = Hex x) /\
  (forall n : number, Hex (HexStr (Hex (HexNum n))) = Hex (HexNum n)).
Proof.
  assert (H : forall x, (forall r, Hex x <> String "#" r) ->
                        Hex (HexStr (Hex x)) = Hex x).
  { intros x Hx. pose proof (Hex_length_ge x) as L.
    set (t := Hex x) in *. unfold Hex.
    assert (E : replace_leading_hash t = t).
    { destruct t as [|c t']; [reflexivity|]. simpl.
      destruct (Ascii.eqb_spec c "#") as [->|_]; [|reflexivity].
      now destruct (Hx t'). }
    rewrite E. unfold padStart.
    destruct (Nat.leb_spec 6 (String.length t)); [reflexivity|lia]. }
  split; [exact H|]. intros n. apply H. apply Hex_num_no_hash.
Qed.

Lemma Hex_is_idempotent_without_hash_witness :
  Hex (HexStr "#abc") = "000abc" /\
  Hex (HexStr (Hex (HexStr "#abc"))) = Hex (HexStr "#abc") /\
  Hex (HexStr "##ffffff") = "#ffffff" /\
  Hex (HexStr (Hex (HexStr "##ffffff"))) = "ffffff".
Proof.
  split; [reflexivity|]. split; [|split; reflexivity].
  apply (proj1 Hex_is_idempotent_without_hash (HexStr "#abc")).
  intros r. discriminate.
Defined.

(** X15: [HexToRGB] throws exactly on a number sign followed by three
    or six hex digits, and throws nothing but "Invalid hex color". *)
Theorem HexToRGB_rejects_well_formed_colours :
  forall hex : string,
    (HexToRGB hex = Throw InvalidHexColor <->
     exists h : string,
       hex = String "#" h /\ all_hex h = true /\
       (String.length h = 3%nat \/ String.length h = 6%nat)) /\
    (forall e : Error, HexToRGB hex = Throw e -> e = InvalidHexColor).
Proof.
  intros hex. split; [|intros e; apply HexToRGB_throw].
  rewrite <- pattern_test_true. unfold HexToRGB.
  destruct (hex_colour_pattern_test hex); split; congruence.
Qed.

Lemma HexToRGB_rejects_well_formed_colours_witness :
  (all_hex "fff" = true /\ String.length "fff" = 3%nat) /\
  HexToRGB "#fff" = Throw InvalidHexColor.
Proof.
  split; [split; reflexivity|].
  apply (proj2 (proj1 (HexToRGB_rejects_well_formed_colours "#fff"))).
  exists "fff". repeat split. now left.
Defined.

(** *** Decimal numerals *)

Lemma math_int_app (R : Z) (ds es : list Z) :
  math_int R (ds ++ es)
  = math_int R ds * R ^ Z.of_nat (List.length es) + math_int R es.
Proof.
  unfold math_int at 1. rewrite fold_left_app.
  apply (math_int_from R es).
Qed.

Lemma string_app_inv_head (s t t' : string) : s ++ t = s ++ t' -> t = t'.
Proof.
  induction s as [|c s IH]; simpl; [auto|]. intros [= H]. auto.
Qed.

Section Radix.

Variable R : Z.
Hypothesis HR : 2 <= R <= 36.

Lemma digit_char_value (d : Z) :
  0 <= d < R -> digit_value (digit_char d) = Some d.
Proof.
  intros H.
  assert (E : d = 0 \/ d = 1 \/ d = 2 \/ d = 3 \/ d = 4 \/ d = 5 \/ d = 6 \/
              d = 7 \/ d = 8 \/ d = 9 \/ d = 10 \/ d = 11 \/ d = 12 \/
              d = 13 \/ d = 14 \/ d = 15 \/ d = 16 \/ d = 17 \/ d = 18 \/
              d = 19 \/ d = 20 \/ d = 21 \/ d = 22 \/ d = 23 \/ d = 24 \/
              d = 25 \/ d = 26 \/ d = 27 \/ d = 28 \/ d = 29 \/ d = 30 \/
              d = 31 \/ d = 32 \/ d = 33 \/ d = 34 \/ d = 35) by lia.
  repeat destruct E as [->|E]; try subst d; reflexivity.
Qed.

Lemma digit_char_below (d : Z) :
  0 <= d < R -> digit_below R (digit_char d) = true.
Proof.
  intros H. unfold digit_below. rewrite (digit_char_value d H).
  apply Z.ltb_lt. lia.
Qed.

Lemma digits_prefix_app (s t : string) :
  all_digits R s = true ->
  digits_prefix R (s ++ t) = (digits_prefix R s ++ digits_prefix R t)%list.
Proof.
  induction s as [|c s IH]; simpl; intros H; [reflexivity|].
  apply andb_prop in H as [Hc Hs]. unfold digit_below in Hc.
  destruct (digit_value c) as [d|]; [|discriminate]. rewrite Hc.
  simpl. now rewrite IH.
Qed.

Lemma digits_prefix_length (s : string) :
  all_digits R s = true ->
  List.length (digits_prefix R s) = String.length s.
Proof.
  induction s as [|c s IH]; simpl; intros H; [reflexivity|].
  apply andb_prop in H as [Hc Hs]. unfold digit_below in Hc.
  destruct (digit_value c) as [d|]; [|discriminate]. rewrite Hc.
  simpl. now rewrite IH.
Qed.

Lemma radix_digits_reads_back (fuel : nat) :
  forall n acc,
    0 <= n < R ^ Z.of_nat fuel -> all_digits R acc = true ->
    all_digits R (radix_digits fuel R n acc) = true /\
    math_int R (digits_prefix R (radix_digits fuel R n acc))
      = n * R ^ Z.of_nat (String.length acc)
        + math_int R (digits_prefix R acc).
Proof.
  induction fuel as [|fuel IH]; intros n acc Hn Hacc.
  - simpl in *. split; [exact Hacc|]. assert (n = 0) as -> by lia. lia.
  - cbn [radix_digits].
    assert (Hd : 0 <= n mod R < R) by (apply Z.mod_pos_bound; lia).
    set (acc' := String (digit_char (n mod R)) acc).
    assert (Hacc' : all_digits R acc' = true)
      by (simpl; now rewrite (digit_char_below _ Hd), Hacc).
    assert (Hval : math_int R (digits_prefix R acc')
                   = n mod R * R ^ Z.of_nat (String.length acc)
                     + math_int R (digits_prefix R acc)).
    { subst acc'. simpl. rewrite (digit_char_value _ Hd).
      destruct (Z.ltb_spec (n mod R) R); [|lia].
      now rewrite math_int_cons, digits_prefix_length. }
    pose proof (Z.div_mod n R ltac:(lia)) as Hdm.
    destruct (Z.eqb_spec (n / R) 0) as [E|E].
    + split; [exact Hacc'|]. rewrite Hval. f_equal. f_equal. nia.
    + rewrite Nat2Z.inj_succ, Z.pow_succ_r in Hn by lia.
      assert (Hq : 0 <= n / R < R ^ Z.of_nat fuel).
      { split; [apply Z.div_pos; lia | apply Z.div_lt_upper_bound; lia]. }
      destruct (IH (n / R) acc' Hq Hacc') as [Ha Hb]. split; [exact Ha|].
      rewrite Hb, Hval. subst acc'. cbn [String.length].
      rewrite Nat2Z.inj_succ, Z.pow_succ_r by lia. nia.
Qed.

Lemma radix_digits_nonempty (fuel : nat) :
  forall n acc, acc <> "" -> radix_digits fuel R n acc <> "".
Proof.
  induction fuel as [|fuel IH]; intros n acc H; [exact H|]. simpl.
  destruct (n / R =? 0); [discriminate|]. apply IH. discriminate.
Qed.

(** The numeral of a natural number in any radix from 2 to 36 is made of
    digits of that radix and denotes the number. *)
Lemma numeral_reads_back (n : Z) :
  0 <= n ->
  all_digits R (numeral R n) = true /\
  math_int R (digits_prefix R (numeral R n)) = n /\
  numeral R n <> "".
Proof.
  intros Hn. unfold numeral.
  assert (Hf : 0 <= n < R ^ Z.of_nat (S (Z.to_nat (Z.log2 n)))).
  { split; [exact Hn|]. rewrite Nat2Z.inj_succ, Z2Nat.id by apply Z.log2_nonneg.
    destruct (Z.eq_dec n 0) as [->|Hz].
    - apply Z.pow_pos_nonneg; [lia|]. simpl. lia.
    - assert (n < 2 ^ Z.succ (Z.log2 n)) by (apply Z.log2_spec; lia).
      assert (2 ^ Z.succ (Z.log2 n) <= R ^ Z.succ (Z.log2 n)).
      { apply Z.pow_le_mono_l. lia. }
      lia. }
  destruct (radix_digits_reads_back _ n "" Hf eq_refl) as [Ha Hb].
  split; [exact Ha|]. split.
  - rewrite Hb. simpl. unfold math_int. simpl. lia.
  - cbn [radix_digits]. destruct (n / R =? 0); [discriminate|].
    apply radix_digits_nonempty. discriminate.
Qed.

End Radix.

Lemma parseInt_0 (input : string) :
  parseInt input (Num 0) =
  let (sign, s) := strip_sign (trim_start input) in
  match strip_0x s with
  | Some rest =>
      match digits_prefix 16 rest with
      | [] => NaN
      | ds => to_double (sign * math_int 16 ds)
      end
  | None =>
      match digits_prefix 10 s with
      | [] => NaN
      | ds => to_double (sign * math_int 10 ds)
      end
  end.
Proof.
  unfold parseInt. destruct (strip_sign (trim_start input)) as [sign s].
  change (ToInt32 (Num 0)) with 0.
  change (negb (0 =? 0) && ((0 <? 2) || (36 <? 0))) with false.
  change ((0 =? 0) || (0 =? 16)) with true.
  cbv iota. destruct (strip_0x s); reflexivity.
Qed.

Lemma decimal_digit_plain (c : ascii) :
  digit_below 10 c = true ->
  is_white_space c = false /\ (c =? "-")%char = false /\
  (c =? "+")%char = false /\ (c =? "x")%char = false /\
  (c =? "X")%char = false /\ (c =? ";")%char = false.
Proof.
  intros H.
  destruct c as [b0 b1 b2 b3 b4 b5 b6 b7].
  destruct b0, b1, b2, b3, b4, b5, b6, b7; vm_compute in H;
    try discriminate H; repeat split.
Qed.

Lemma strip_0x_decimal (s t : string) :
  all_digits 10 s = true -> s <> "" ->
  strip_0x (s ++ t) = None \/ exists c, s = String c "" /\ strip_0x (s ++ t) = strip_0x (String c t).
Proof.
  intros Hs Hne. destruct s as [|c [|x s]]; [congruence| |].
  - right. eauto.
  - left. simpl in Hs |- *. apply andb_prop in Hs as [_ Hs].
    apply andb_prop in Hs as [Hx _].
    destruct (decimal_digit_plain x Hx) as (_ & _ & _ & -> & -> & _).
    now rewrite andb_false_r.
Qed.

(** [parseInt] reads a decimal numeral that ends the string or is
    followed by a semicolon. *)
Lemma parseInt_decimal_prefix (s t : string) :
  all_digits 10 s = true -> s <> "" ->
  t = "" \/ (exists r, t = String ";" r) ->
  parseInt (s ++ t) (Num 0) = to_double (math_int 10 (digits_prefix 10 s)).
Proof.
  intros Hs Hne Ht. rewrite parseInt_0.
  assert (Ed : digits_prefix 10 (s ++ t) = digits_prefix 10 s).
  { rewrite (digits_prefix_app 10 s t Hs).
    destruct Ht as [->|[r ->]]; simpl; apply app_nil_r. }
  assert (E0 : strip_0x (s ++ t) = None).
  { destruct (strip_0x_decimal s t Hs Hne) as [E|(c & -> & E)]; [exact E|].
    rewrite E. destruct Ht as [->|[r ->]]; [reflexivity|]. simpl.
    now rewrite andb_false_r. }
  destruct s as [|c s]; [congruence|]. pose proof Hs as Hs'.
  simpl in Hs'. apply andb_prop in Hs' as [Hc _].
  destruct (decimal_digit_plain c Hc) as (Hw & Hm & Hp & _).
  change (trim_start (String c s ++ t))
    with (if is_white_space c then trim_start (s ++ t) else String c (s ++ t)).
  rewrite Hw. unfold strip_sign. rewrite Hm, Hp.
  change (String c (s ++ t)) with (String c s ++ t). rewrite E0, Ed.
  destruct (digits_prefix 10 (String c s)) as [|d ds] eqn:E.
  - exfalso. simpl in E. unfold digit_below in Hc.
    destruct (digit_value c); [|discriminate]. now rewrite Hc in E.
  - now rewrite Z.mul_1_l.
Qed.

Lemma interpolate_reads_back (n : Z) (t : string) :
  0 <= n < 2 ^ 53 ->
  t = "" \/ (exists r, t = String ";" r) ->
  parseInt (interpolate (Num n) ++ t) (Num 0) = Num n.
Proof.
  intros Hn Ht. unfold interpolate, Number_toString.
  destruct (Z.ltb_spec n 0); [lia|].
  destruct (numeral_reads_back 10 ltac:(lia) n) as (Ha & Hv & Hne); [lia|].
  rewrite (parseInt_decimal_prefix _ t Ha Hne Ht), Hv.
  now apply to_double_exact.
Qed.

Lemma string_app_nil_r (s : string) : s ++ "" = s.
Proof. induction s as [|c s IH]; simpl; [reflexivity|now rewrite IH]. Qed.

Lemma interpolate_injective (n m : Z) (t u : string) :
  0 <= n < 2 ^ 53 -> 0 <= m < 2 ^ 53 ->
  t = "" \/ (exists r, t = String ";" r) ->
  u = "" \/ (exists r, u = String ";" r) ->
  interpolate (Num n) ++ t = interpolate (Num m) ++ u ->
  n = m /\ t = u.
Proof.
  intros Hn Hm Ht Hu H.
  assert (E : n = m).
  { pose proof (f_equal (fun s => parseInt s (Num 0)) H) as P. cbv beta in P.
    rewrite !interpolate_reads_back in P by assumption. now injection P. }
  subst m. split; [reflexivity|]. eapply string_app_inv_head; eauto.
Qed.

(** X16: [RGB] is injective on natural numbers below 2^53: different
    triples of channels never print as the same string. *)
Theorem RGB_is_injective :
  forall r g b r' g' b' : Z,
    0 <= r < 2 ^ 53 -> 0 <= g < 2 ^ 53 -> 0 <= b < 2 ^ 53 ->
    0 <= r' < 2 ^ 53 -> 0 <= g' < 2 ^ 53 -> 0 <= b' < 2 ^ 53 ->
    RGB (Num r) (Num g) (Num b) = RGB (Num r') (Num g') (Num b') ->
    r = r' /\ g = g' /\ b = b'.
Proof.
  intros r g b r' g' b' Hr Hg Hb Hr' Hg' Hb' H. unfold RGB in H.
  apply interpolate_injective in H as [-> H];
    try assumption; try (right; eexists; reflexivity).
  apply (string_app_inv_head ";") in H.
  apply interpolate_injective in H as [-> H];
    try assumption; try (right; eexists; reflexivity).
  apply (string_app_inv_head ";") in H.
  rewrite <- (string_app_nil_r (interpolate (Num b))),
          <- (string_app_nil_r (interpolate (Num b'))) in H.
  apply interpolate_injective in H as [-> _]; auto.
Qed.

Lemma RGB_is_injective_witness :
  (0 <= 1 < 2 ^ 53 /\ 0 <= 23 < 2 ^ 53 /\ 0 <= 4 < 2 ^ 53 /\
   0 <= 12 < 2 ^ 53 /\ 0 <= 3 < 2 ^ 53) /\
  RGB (Num 1) (Num 23) (Num 4) = "1;23;4" /\
  RGB (Num 12) (Num 3) (Num 4) = "12;3;4" /\
  (RGB (Num 1) (Num 23) (Num 4) = RGB (Num 12) (Num 3) (Num 4) ->
   1 = 12 /\ 23 = 3 /\ 4 = 4).
Proof.
  split; [lia|]. split; [reflexivity|]. split; [reflexivity|].
  apply (RGB_is_injective 1 23 4 12 3 4); lia.
Defined.

(** X17: for a natural number below 2^53 the indexed-colour setters
    store, after [38;5;] or [48;5;], a decimal numeral that [parseInt]
    reads back as the number. *)
Theorem indexed_setters_store_the_decimal_index :
  forall (n : Z) (this : CLW),
    0 <= n < 2 ^ 53 ->
    exists d : string,
      text_256 (Num n) this = Ok (set_color ("38;5;" ++ d) this) /\
      bg_256 (Num n) this = Ok (set_bgColor ("48;5;" ++ d) this) /\
      all_digits 10 d = true /\ parseInt d (Num 0) = Num n.
Proof.
  intros n this Hn. exists (interpolate (Num n)).
  split; [reflexivity|]. split; [reflexivity|]. split.
  - unfold interpolate, Number_toString. destruct (Z.ltb_spec n 0); [lia|].
    apply (numeral_reads_back 10); lia.
  - rewrite <- (string_app_nil_r (interpolate (Num n))).
    apply interpolate_reads_back; auto.
Qed.

Lemma indexed_setters_store_the_decimal_index_witness :
  0 <= 208 < 2 ^ 53 /\
  text_256 (Num 208) (new_CLW "X") = Ok (mkCLW "X" "38;5;208" "" []) /\
  exists d : string,
    text_256 (Num 208) (new_CLW "X") = Ok (set_color ("38;5;" ++ d) (new_CLW "X")) /\
    bg_256 (Num 208) (new_CLW "X") = Ok (set_bgColor ("48;5;" ++ d) (new_CLW "X")) /\
    all_digits 10 d = true /\ parseInt d (Num 0) = Num 208.
Proof.
  split; [lia|]. split; [reflexivity|].
  apply (indexed_setters_store_the_decimal_index 208 (new_CLW "X")). lia.
Defined.
